(** * art.attacks.attack: the abstract [Attack] base class

    A shallow embedding of [art/attacks/attack.py].  The module defines one
    class, [Attack], with a class attribute [attack_params], a constructor
    and four methods.  Python objects are modelled the way the interpreter
    keeps them:

    - an instance is its [__dict__], a finite map from attribute names to
      values; reading an attribute consults the instance dictionary first and
      the class second; [setattr] writes the instance dictionary;
    - a subclass is a class record that declares its own [attack_params]
      and possibly overrides [generate];
    - a method call looks its name up on the instance before the class
      ([invoke]), and binds its keywords to the parameters before the body
      runs ([bind_kwargs]): a keyword named like a parameter that is bound
      already, [self] first of all, is a [TypeError];
    - [keras.utils.Progbar] is imported from another library, so it is an
      interface ([Progbar] below); the progress-bar objects the methods
      create live in a store and are referred to by location, since
      [update_progress_bar] mutates the object the attribute refers to
      and not the attribute;
    - every other object (the classifier first of all) is an opaque
      reference.  *)

From Stdlib Require Import ZArith String List SpecFloat.
From stdpp Require Import base option list gmap strings fin_maps.

Local Open Scope string_scope.
Local Open Scope Z_scope.

(** ** Values *)

Definition loc := nat.

#[warnings="-register-all"]
Inductive value :=
  | VNone
  | VBool (b : bool)
  | VInt (n : Z)
  | VFloat (x : spec_float)
  | VStr (s : string)
  | VList (items : list value)
  | VTuple (items : list value)
  | VRef (o : loc)        (* an object defined elsewhere, e.g. the classifier *)
  | VProgbar (p : loc).   (* a [Progbar] object of the store *)

Inductive exn :=
  | NotImplementedError
  | AttributeError
  | TypeError
  | OtherError (name : string).

(** Keyword arguments: a Python [dict] in iteration order. *)
Definition kwargs := list (string * value).

(** The float literals of the source, as binary64 numbers. *)
Definition float_0_05 : spec_float := S754_finite false 7205759403792794 (-57).
Definition float_0_2 : spec_float := S754_finite false 7205759403792794 (-55).
Definition float_0_3 : spec_float := S754_finite false 5404319552844595 (-54).

(** ** The progress-bar library

    [Progbar_new target width verbose interval stateful_metrics] is the
    constructor call [Progbar(...)]; [Progbar_update b current values] is
    [b.update(current, values)]: it yields the bar as the call leaves it and
    the exception it raised, if any. *)
Class Progbar := {
  bar : Type;
  Progbar_new : value → value → value → value → value → exn + bar;
  Progbar_update : bar → value → value → bar * option exn;
}.

Section attack.
Context `{PB : Progbar}.

(** ** Instance state and the outcome of a call *)

Record state := State {
  dict : gmap string value;   (* self.__dict__ *)
  heap : list bar;            (* the Progbar objects created so far *)
}.

(** A call returns, raises, or leaves the part of Python modelled here
    ([Outside]): it runs the code of a foreign object, or it assigns one of
    the names the interpreter manages itself. *)
Inductive outcome (A : Type) :=
  | Return (a : A) (s : state)
  | Raise (e : exn) (s : state)
  | Outside.
Global Arguments Return {A} a s.
Global Arguments Raise {A} e s.
Global Arguments Outside {A}.

Definition M (A : Type) : Type := state → outcome A.

Definition ret {A} (a : A) : M A := λ s, Return a s.
Definition raise {A} (e : exn) : M A := λ s, Raise e s.
Definition outside {A} : M A := λ _, Outside.
Definition bind {A B} (m : M A) (k : A → M B) : M B :=
  λ s, match m s with
       | Return a s' => k a s'
       | Raise e s' => Raise e s'
       | Outside => Outside
       end.

Declare Scope py_scope.
Delimit Scope py_scope with py.
Notation "'let*' x := m 'in' k" := (bind m (λ x, k))
  (at level 10, x name, m at level 100, k at level 200) : py_scope.
Notation "m ;; k" := (bind m (λ _, k))
  (at level 100, k at level 200, right associativity) : py_scope.
Local Open Scope py_scope.

(** [for x in l: body x] *)
Fixpoint for_each {A} (l : list A) (body : A → M unit) : M unit :=
  match l with
  | [] => ret ()
  | x :: l' => body x ;; for_each l' body
  end.

(** ** Classes *)

Record pyclass := PyClass {
  cls_attack_params : list string;
  cls_generate : option (value → kwargs → M value);
}.

(** [class Attack(ABC): attack_params = ['classifier']]; [generate] is the
    one defined below. *)
Definition Attack : pyclass :=
  {| cls_attack_params := ["classifier"]; cls_generate := None |}.

(** ** Attribute access *)

(** Data attributes a class of this family defines. *)
Definition class_attr (cls : pyclass) (name : string) : option value :=
  if String.eqb name "attack_params"
  then Some (VList (VStr <$> cls_attack_params cls))
  else None.

(** [self.name] *)
Definition getattr (cls : pyclass) (name : string) : M value :=
  λ s, match dict s !! name with
       | Some v => Return v s
       | None =>
           match class_attr cls name with
           | Some v => Return v s
           | None => Raise AttributeError s
           end
       end.

(** Names that [object] serves through descriptors of its own; assigning
    them does not write the instance dictionary. *)
Definition interpreter_names : list string :=
  ["__class__"; "__dict__"; "__weakref__"].

(** [setattr(self, name, v)] *)
Definition setattr (name : string) (v : value) : M unit :=
  λ s, if bool_decide (name ∈ interpreter_names) then Outside
       else Return () {| dict := <[name := v]> (dict s); heap := heap s |}.

(** ** The [in] operator with a string on the left *)

Fixpoint is_substring (p s : string) : bool :=
  String.prefix p s ||
  match s with
  | EmptyString => false
  | String _ s' => is_substring p s'
  end.

(** Membership in a list or tuple compares element by element and stops at
    the first equal one; comparing with a foreign object runs that object's
    code. *)
Fixpoint items_contain (key : string) (items : list value) : option bool :=
  match items with
  | [] => Some false
  | VStr s :: items' =>
      if String.eqb key s then Some true else items_contain key items'
  | (VRef _ | VProgbar _) :: _ => None
  | _ :: items' => items_contain key items'
  end.

(** [key in container] *)
Definition py_in (key : string) (container : value) : M bool :=
  match container with
  | VList items | VTuple items =>
      match items_contain key items with
      | Some b => ret b
      | None => outside
      end
  | VStr s => ret (is_substring key s)
  | VNone | VBool _ | VInt _ | VFloat _ => raise TypeError
  | VRef _ | VProgbar _ => outside
  end.

(** ** The methods of [Attack] *)

(** [def __init__(self, classifier): self.classifier = classifier] *)
Definition __init__ (classifier : value) : M value :=
  setattr "classifier" classifier ;; ret VNone.

(** Binding the keywords of a call [f(..., **kw)] to a function whose
    parameters [params] are already bound by position and that collects the
    other keywords in [**kwargs]: a keyword that names one of [params] is a
    [TypeError] (multiple values for the argument), raised before the
    body runs. *)
Definition bind_kwargs (params : list string) (kw : kwargs) : M unit :=
  if bool_decide (Exists (λ p, p ∈ kw.*1) params) then raise TypeError
  else ret ().

(** [def generate(self, x, **kwargs): raise NotImplementedError], called
    with [x] by position. *)
Definition generate (x : value) (kw : kwargs) : M value :=
  bind_kwargs ["self"; "x"] kw ;;
  raise NotImplementedError.

(** [Progbar(target, width, verbose, interval, stateful_metrics)]: the new
    object is appended to the store. *)
Definition new_Progbar (target width verbose interval stateful_metrics : value)
  : M value :=
  λ s, match Progbar_new target width verbose interval stateful_metrics with
       | inr b => Return (VProgbar (length (heap s)))
                         {| dict := dict s; heap := heap s ++ [b] |}
       | inl e => Raise e s
       end.

(** [def start_progress_bar(self, target, width=30, verbose=1,
    interval=0.05, stateful_metrics=None)]; an argument left out is [None]
    here and takes its default. *)
Definition start_progress_bar (target : value)
    (width verbose interval stateful_metrics : option value) : M value :=
  let* b := new_Progbar target
              (default (VInt 30) width)
              (default (VInt 1) verbose)
              (default (VFloat float_0_05) interval)
              (default VNone stateful_metrics) in
  setattr "prog_bar" b ;; ret VNone.

(** [receiver.update(current, values)] *)
Definition call_update (receiver current values : value) : M value :=
  match receiver with
  | VProgbar p =>
      λ s, match heap s !! p with
           | Some b =>
               let '(b', err) := Progbar_update b current values in
               let s' := {| dict := dict s; heap := <[p := b']> (heap s) |} in
               match err with
               | None => Return VNone s'
               | Some e => Raise e s'
               end
           | None => Outside
           end
  | VRef _ => outside
  | _ => raise AttributeError
  end.

(** [def update_progress_bar(self, current, values=None)] *)
Definition update_progress_bar (cls : pyclass) (current : value)
    (values : option value) : M value :=
  let* b := getattr cls "prog_bar" in
  call_update b current (default VNone values) ;; ret VNone.

(** [def set_params(self, **kwargs)] *)
Definition set_params (cls : pyclass) (kw : kwargs) : M value :=
  bind_kwargs ["self"] kw ;;
  for_each kw (λ '(key, value),
    let* allowed := getattr cls "attack_params" in
    let* found := py_in key allowed in
    if found : bool then setattr key value else ret ()) ;;
  ret (VBool true).

(** ** Calling the methods on an instance *)

(** Calling a value that is not one of this module's methods: the data
    values are not callable, a foreign object runs its own code. *)
Definition call_value (f : value) : M value :=
  match f with
  | VRef _ | VProgbar _ => outside
  | _ => raise TypeError
  end.

(** [self.name(...)]: the name is looked up on the instance first; an
    attribute of the instance under that name is what gets called, and only
    without one the method of the class runs. *)
Definition invoke (name : string) (method : M value) : M value :=
  λ s, match dict s !! name with
       | Some f => call_value f s
       | None => method s
       end.

(** [self.generate(x, **kwargs)]: on the instance, then on its class, then
    on the base class [Attack]. *)
Definition invoke_generate (cls : pyclass) (x : value) (kw : kwargs)
  : M value :=
  invoke "generate"
    match cls_generate cls with
    | Some g => g x kw
    | None => generate x kw
    end.

(** [Attack(classifier)], or [cls(classifier)] for a subclass that keeps
    [__init__]: a fresh instance, while the store stays as it is. *)
Definition new_Attack (classifier : value) (h : list bar) : outcome value :=
  __init__ classifier {| dict := ∅; heap := h |}.

(** What a caller can do with an instance once it is constructed. *)
Inductive call :=
  | Generate (x : value) (kw : kwargs)
  | StartProgressBar (target : value)
      (width verbose interval stateful_metrics : option value)
  | UpdateProgressBar (current : value) (values : option value)
  | SetParams (kw : kwargs).

Definition method_name (c : call) : string :=
  match c with
  | Generate _ _ => "generate"
  | StartProgressBar _ _ _ _ _ => "start_progress_bar"
  | UpdateProgressBar _ _ => "update_progress_bar"
  | SetParams _ => "set_params"
  end.

(** The method of the class that a call reaches when the instance has no
    attribute of that name. *)
Definition method (cls : pyclass) (c : call) : M value :=
  match c with
  | Generate x kw =>
      match cls_generate cls with
      | Some g => g x kw
      | None => generate x kw
      end
  | StartProgressBar target width verbose interval stateful_metrics =>
      start_progress_bar target width verbose interval stateful_metrics
  | UpdateProgressBar current values => update_progress_bar cls current values
  | SetParams kw => set_params cls kw
  end.

(** [self.generate(...)], [self.start_progress_bar(...)],
    [self.update_progress_bar(...)], [self.set_params(...)] *)
Definition exec (cls : pyclass) (c : call) : M value :=
  invoke (method_name c) (method cls c).

(** The state a call leaves behind, whether it returned or raised. *)
Definition state_after {A} (o : outcome A) : option state :=
  match o with
  | Return _ s | Raise _ s => Some s
  | Outside => None
  end.

(** A caller that makes the calls one after the other and carries on after
    an exception. *)
Fixpoint run (cls : pyclass) (cs : list call) (s : state) : option state :=
  match cs with
  | [] => Some s
  | c :: cs' =>
      match state_after (exec cls c s) with
      | Some s' => run cls cs' s'
      | None => None
      end
  end.

Definition is_start_progress_bar (c : call) : bool :=
  match c with StartProgressBar _ _ _ _ _ => true | _ => false end.

Definition is_set_params (c : call) : bool :=
  match c with SetParams _ => true | _ => false end.

(** ** Vocabulary of the specification *)

(** A name that configures an attack: not the allow-list itself and not a
    name of the interpreter's.  [set_params] reads [self.attack_params]
    again at every turn of its loop, so a list that named [attack_params]
    could be replaced in the middle of a call. *)
Definition config_name (k : string) : Prop :=
  k ≠ "attack_params" ∧ k ∉ interpreter_names.

(** [allow_list cls s L]: on the instance, [self.attack_params] is the list
    of names [L], all of them configuration names. *)
Definition allow_list (cls : pyclass) (s : state) (L : list string) : Prop :=
  getattr cls "attack_params" s = Return (VList (VStr <$> L)) s
  ∧ Forall config_name L.

(** The dictionary [set_params] leaves: the allowed keywords assigned in
    order. *)
Definition assign_allowed (L : list string) (d : gmap string value)
    (kw : kwargs) : gmap string value :=
  foldl (λ d '(k, v), if bool_decide (k ∈ L) then <[k := v]> d else d) d kw.

(** The states of an instance of the base class: the only attributes of
    its own are [classifier] and [prog_bar], and [prog_bar] refers to a bar
    of the store. *)
Definition Attack_state (s : state) : Prop :=
  (∀ k, k ≠ "classifier" → k ≠ "prog_bar" → dict s !! k = None)
  ∧ (∀ v, dict s !! "prog_bar" = Some v →
          ∃ p, v = VProgbar p ∧ (p < length (heap s))%nat).

(** C1 as the specification words it, for the allow-list [L] read before
    the call: afterwards every keyword named in [L] has the supplied value
    and every attribute not named in [L] is as it was. *)
Definition assigns_exactly_allowed (cls : pyclass) (s : state)
    (L : list string) (kw : kwargs) : Prop :=
  ∃ s', state_after (set_params cls kw s) = Some s'
        ∧ (∀ k v, (k, v) ∈ kw → k ∈ L → dict s' !! k = Some v)
        ∧ (∀ k, k ∉ L → dict s' !! k = dict s !! k).

(** C2 as the specification words it: the call raises nothing and returns
    [True]. *)
Definition returns_True (cls : pyclass) (s : state) (kw : kwargs) : Prop :=
  ∃ s', set_params cls kw s = Return (VBool true) s'.

(** The frame property as the specification words it: a call other than
    [set_params] leaves every attribute of the instance as it was. *)
Definition only_set_params_mutates (cls : pyclass) (s : state) : Prop :=
  ∀ c s', is_set_params c = false →
          state_after (exec cls c s) = Some s' → dict s' = dict s.

End attack.

Global Arguments state {PB}.
Global Arguments pyclass {PB}.

(** ** A stand-in progress bar

    Used by the examples only: it records the target it was created with,
    the last step and the last values it was given, and never raises. *)
Record stub_bar := StubBar {
  stub_target : value;
  stub_seen : value;
  stub_values : value;
}.

Definition StubProgbar : Progbar := {|
  bar := stub_bar;
  Progbar_new target _ _ _ _ := inr (StubBar target (VInt 0) VNone);
  Progbar_update b current values := (StubBar (stub_target b) current values, None);
|}.

(** The instance and the call of the specification's example:
    [attack_params = ["classifier", "eps"]] and [set_params(eps=0.3, foo=7)]. *)
Definition EpsAttack : @pyclass StubProgbar :=
  {| cls_attack_params := ["classifier"; "eps"]; cls_generate := None |}.

Definition stub_classifier : value := VRef 0%nat.

(** An instance as [__init__] leaves it, before any progress bar exists. *)
Definition fresh_instance : @state StubProgbar :=
  {| dict := {["classifier" := stub_classifier]}; heap := [] |}.

(** The calls of the specification's other examples. *)
Definition generate_input : value :=
  VList [VList [VInt 0; VInt 0]; VList [VInt 1; VInt 1]].

Definition loss_values : value :=
  VList [VTuple [VStr "loss"; VFloat float_0_2]].

Definition start_10 : call :=
  StartProgressBar (VInt 10) None None None None.

(** An instance after [start_progress_bar(10)]. *)
Definition bar_instance : @state StubProgbar :=
  {| dict := <["prog_bar" := VProgbar 0%nat]> {["classifier" := stub_classifier]};
     heap := [StubBar (VInt 10) (VInt 0) VNone : @bar StubProgbar] |}.

(** A class whose allow-list names the allow-list. *)
Definition SelfNamingAttack : @pyclass StubProgbar :=
  {| cls_attack_params := ["attack_params"; "eps"]; cls_generate := None |}.

(** An instance on which [attack_params] was set to [None]. *)
Definition broken_instance : @state StubProgbar :=
  {| dict := {["attack_params" := VNone]}; heap := [] |}.

Definition eps_foo : kwargs := [("eps", VFloat float_0_3); ("foo", VInt 7)].

(** Keywords one of which is named like the parameter [self]. *)
Definition self_classifier : kwargs :=
  [("self", VInt 1); ("classifier", VRef 1%nat)].

(** Keywords that first replace the allow-list. *)
Definition foo_then_eps_foo : kwargs :=
  ("attack_params", VList [VStr "foo"]) :: eps_foo.

(** * Properties *)

Section properties.
Context `{PB : Progbar}.
Implicit Types (cls : pyclass) (s : state) (L : list string) (kw : kwargs).

(** ** Attribute access and the [in] test *)

Lemma items_contain_names key L :
  items_contain key (VStr <$> L) = Some (bool_decide (key ∈ L)).
Proof.
  induction L as [|n L IH]; [done|].
  rewrite fmap_cons. cbn [items_contain].
  - destruct (String.eqb_spec key n) as [->|Hne].
    + rewrite bool_decide_eq_true_2; [reflexivity|apply list_elem_of_here].
    + rewrite IH. f_equal. apply bool_decide_ext.
      rewrite elem_of_cons. split; [by right|by intros [?|?]].
Qed.

Lemma py_in_names key L s :
  py_in key (VList (VStr <$> L)) s = Return (bool_decide (key ∈ L)) s.
Proof. unfold py_in. by rewrite items_contain_names. Qed.

Lemma setattr_config name v s :
  name ∉ interpreter_names →
  setattr name v s = Return () {| dict := <[name := v]> (dict s); heap := heap s |}.
Proof. intros Hn. unfold setattr. by rewrite bool_decide_eq_false_2. Qed.

Lemma allow_list_insert cls s L k v :
  allow_list cls s L → k ≠ "attack_params" →
  allow_list cls {| dict := <[k := v]> (dict s); heap := heap s |} L.
Proof.
  intros [Hget HL] Hk. split; [|done].
  unfold getattr in *; cbn [dict]. rewrite lookup_insert_ne; [|done].
  destruct (dict s !! "attack_params"); [|destruct (class_attr _ _)];
    congruence.
Qed.

Lemma allow_list_same_lookup cls s s' L :
  allow_list cls s L →
  dict s' !! "attack_params" = dict s !! "attack_params" →
  allow_list cls s' L.
Proof.
  intros [Hget HL] Hd. split; [|done].
  unfold getattr in *. rewrite Hd.
  destruct (dict s !! "attack_params"); [|destruct (class_attr _ _)];
    congruence.
Qed.

(** An instance of the base class that does not shadow [attack_params]
    reads the class attribute. *)
Lemma Attack_allow_list s :
  dict s !! "attack_params" = None → allow_list Attack s ["classifier"].
Proof.
  intros Hd. split.
  - unfold getattr. by rewrite Hd.
  - repeat constructor; [done|]. by apply (bool_decide_eq_false_1 _).
Qed.

(** ** The loop of [set_params] *)

(** ** Binding the keywords *)

Lemma bind_kwargs_absent params kw s :
  Forall (λ p, p ∉ kw.*1) params → bind_kwargs params kw s = Return () s.
Proof.
  intros Hout. unfold bind_kwargs. rewrite bool_decide_eq_false_2; [done|].
  intros Hin. apply Exists_exists in Hin as (p & Hp & Hin).
  by apply (proj1 (Forall_forall _ _) Hout p Hp).
Qed.

Lemma bind_kwargs_present params kw s p :
  p ∈ params → p ∈ kw.*1 → bind_kwargs params kw s = Raise TypeError s.
Proof.
  intros Hp Hin. unfold bind_kwargs. rewrite bool_decide_eq_true_2; [done|].
  apply Exists_exists. by exists p.
Qed.

(** A keyword named [self] stops [set_params] before its body. *)
Lemma set_params_self cls kw s :
  "self" ∈ kw.*1 → set_params cls kw s = Raise TypeError s.
Proof.
  intros Hin. unfold set_params, bind.
  by rewrite (bind_kwargs_present _ _ _ "self"); [|apply list_elem_of_here|].
Qed.

Lemma generate_binds x kw s :
  "self" ∉ kw.*1 → "x" ∉ kw.*1 →
  generate x kw s = Raise NotImplementedError s.
Proof.
  intros Hself Hx. unfold generate, bind.
  rewrite bind_kwargs_absent; [done|]. by repeat constructor.
Qed.

Lemma generate_state x kw s s' :
  state_after (generate x kw s) = Some s' → s' = s.
Proof.
  unfold generate, bind, bind_kwargs.
  destruct (bool_decide _); by intros [= <-].
Qed.

(** One turn of the loop: the test on the key, then the rest of the
    keywords. *)
Lemma set_params_cons cls k v kw s :
  "self" ∉ ((k, v) :: kw).*1 →
  set_params cls ((k, v) :: kw) s =
  match getattr cls "attack_params" s with
  | Return allowed s1 =>
      match py_in k allowed s1 with
      | Return true s2 =>
          match setattr k v s2 with
          | Return _ s3 => set_params cls kw s3
          | Raise e s3 => Raise e s3
          | Outside => Outside
          end
      | Return false s2 => set_params cls kw s2
      | Raise e s2 => Raise e s2
      | Outside => Outside
      end
  | Raise e s1 => Raise e s1
  | Outside => Outside
  end.
Proof.
  intros Hself.
  assert (Hrest : "self" ∉ kw.*1).
  { intros Hin. apply Hself. rewrite fmap_cons. by right. }
  assert (Hbind : ∀ s0, bind_kwargs ["self"] kw s0 = Return () s0).
  { intros s0. apply bind_kwargs_absent. by repeat constructor. }
  unfold set_params, bind.
  rewrite (bind_kwargs_absent _ ((k, v) :: kw)); [|by repeat constructor].
  simpl; unfold bind.
  destruct (getattr _ _ _) as [allowed s1|e s1|]; [|done..].
  destruct (py_in _ _ _) as [[] s2|e s2|]; [|by rewrite Hbind|done..].
  destruct (setattr _ _ _) as [[] s3|e s3|]; [|done..].
  by rewrite Hbind.
Qed.

Lemma set_params_nil cls s : set_params cls [] s = Return (VBool true) s.
Proof. done. Qed.

Lemma set_params_returns cls L kw : ∀ s,
  "self" ∉ kw.*1 →
  allow_list cls s L →
  set_params cls kw s
  = Return (VBool true) {| dict := assign_allowed L (dict s) kw; heap := heap s |}.
Proof.
  induction kw as [|[k v] kw IH]; intros s Hself Hs.
  - by destruct s.
  - assert (Hrest : "self" ∉ kw.*1).
    { intros Hin. apply Hself. rewrite fmap_cons. by right. }
    rewrite set_params_cons; [|done]. destruct Hs as [Hget HL]. rewrite Hget.
    rewrite py_in_names. simpl. case_bool_decide as Hk.
    + destruct (proj1 (Forall_forall _ _) HL k Hk) as [Hne Hint].
      rewrite setattr_config; [|done].
      rewrite IH; [done..|]. by apply allow_list_insert.
    + rewrite IH; [done..|]. by split.
Qed.

(** The state [set_params] leaves, whether the keywords bind or not. *)
Lemma set_params_state cls L kw s :
  allow_list cls s L →
  state_after (set_params cls kw s)
  = Some {| dict := if bool_decide ("self" ∈ kw.*1) then dict s
                    else assign_allowed L (dict s) kw;
            heap := heap s |}.
Proof.
  intros Hs. case_bool_decide as Hself.
  - rewrite set_params_self; [|done]. by destruct s.
  - by rewrite (set_params_returns _ L).
Qed.

(** ** The dictionary after [set_params] *)

Lemma assign_allowed_cons L d k v kw :
  assign_allowed L d ((k, v) :: kw)
  = assign_allowed L (if bool_decide (k ∈ L) then <[k := v]> d else d) kw.
Proof. done. Qed.

(** Names outside the allow-list, and names the call does not mention, keep
    their entry. *)
Lemma assign_allowed_frame L kw k : ∀ d,
  k ∉ L ∨ k ∉ kw.*1 → assign_allowed L d kw !! k = d !! k.
Proof.
  induction kw as [|[k0 v0] kw IH]; intros d Hk; [done|].
  rewrite assign_allowed_cons, IH.
  - case_bool_decide as Hk0; [|done].
    apply lookup_insert_ne. intros ->.
    destruct Hk as [Hk|Hk]; [done|]. apply Hk. rewrite fmap_cons. by left.
  - destruct Hk as [Hk|Hk]; [by left|right].
    intros Hin. apply Hk. rewrite fmap_cons. by right.
Qed.

(** An allowed keyword ends up with its value. *)
Lemma assign_allowed_assigned L kw k v : ∀ d,
  NoDup kw.*1 → (k, v) ∈ kw → k ∈ L → assign_allowed L d kw !! k = Some v.
Proof.
  induction kw as [|[k0 v0] kw IH]; intros d Hnd Hin HL.
  - by apply elem_of_nil in Hin.
  - rewrite fmap_cons in Hnd. apply NoDup_cons in Hnd as [Hk0 Hnd].
    rewrite assign_allowed_cons.
    apply elem_of_cons in Hin as [Heq|Hin].
    + injection Heq as -> ->.
      rewrite assign_allowed_frame; [|by right].
      rewrite bool_decide_eq_true_2; [|done]. apply lookup_insert_eq.
    + by apply IH.
Qed.

(** What an allowed keyword ends up with depends on the call alone. *)
Lemma assign_allowed_determined L kw k : ∀ d d',
  k ∈ L → k ∈ kw.*1 → assign_allowed L d kw !! k = assign_allowed L d' kw !! k.
Proof.
  induction kw as [|[k0 v0] kw IH]; intros d d' HL Hin.
  - by apply elem_of_nil in Hin.
  - rewrite !assign_allowed_cons.
    destruct (decide (k ∈ kw.*1)) as [Hrest|Hrest]; [by apply IH|].
    rewrite fmap_cons in Hin. apply elem_of_cons in Hin as [->|Hin]; [|done].
    rewrite !assign_allowed_frame; [|by right..].
    rewrite bool_decide_eq_true_2; [|done]. simpl.
    by rewrite !lookup_insert_eq.
Qed.

Lemma assign_allowed_idemp L d kw :
  assign_allowed L (assign_allowed L d kw) kw = assign_allowed L d kw.
Proof.
  apply map_eq. intros k.
  destruct (decide (k ∈ L)) as [HL|HL];
    [destruct (decide (k ∈ kw.*1)) as [Hin|Hin]|].
  - by apply assign_allowed_determined.
  - apply assign_allowed_frame. by right.
  - apply assign_allowed_frame. by left.
Qed.

(** An entry that changed is an allowed keyword of the call. *)
Lemma assign_allowed_changed L d kw k :
  assign_allowed L d kw !! k ≠ d !! k → k ∈ L ∧ k ∈ kw.*1.
Proof.
  intros Hne. split; apply dec_stable; intros Hk; apply Hne;
    apply assign_allowed_frame; [by left|by right].
Qed.

(** ** The progress-bar methods *)

Lemma start_progress_bar_returns target width verbose interval metrics s b :
  Progbar_new target (default (VInt 30) width) (default (VInt 1) verbose)
    (default (VFloat float_0_05) interval) (default VNone metrics) = inr b →
  start_progress_bar target width verbose interval metrics s
  = Return VNone {| dict := <["prog_bar" := VProgbar (length (heap s))]> (dict s);
                    heap := heap s ++ [b] |}.
Proof. intros Hnew. unfold start_progress_bar, bind, new_Progbar. by rewrite Hnew. Qed.

Lemma start_progress_bar_raises target width verbose interval metrics s e :
  Progbar_new target (default (VInt 30) width) (default (VInt 1) verbose)
    (default (VFloat float_0_05) interval) (default VNone metrics) = inl e →
  start_progress_bar target width verbose interval metrics s = Raise e s.
Proof. intros Hnew. unfold start_progress_bar, bind, new_Progbar. by rewrite Hnew. Qed.

Lemma update_progress_bar_missing cls current values s :
  dict s !! "prog_bar" = None →
  update_progress_bar cls current values s = Raise AttributeError s.
Proof. intros Hd. unfold update_progress_bar, bind, getattr. by rewrite Hd. Qed.

Lemma update_progress_bar_delegates cls current values s p b :
  dict s !! "prog_bar" = Some (VProgbar p) → heap s !! p = Some b →
  update_progress_bar cls current values s =
  let s' := {| dict := dict s;
               heap := <[p := (Progbar_update b current (default VNone values)).1]>
                         (heap s) |} in
  match (Progbar_update b current (default VNone values)).2 with
  | None => Return VNone s'
  | Some e => Raise e s'
  end.
Proof.
  intros Hd Hh. unfold update_progress_bar, bind, getattr. rewrite Hd.
  simpl. rewrite Hh. by destruct (Progbar_update _ _ _) as [b' [e|]].
Qed.

Lemma call_update_dict receiver current values s s' :
  state_after (call_update receiver current values s) = Some s' →
  dict s' = dict s ∧ length (heap s') = length (heap s).
Proof.
  destruct receiver; simpl; try (intros [= <-]; done); try done.
  destruct (heap s !! p) as [b|]; [|done].
  destruct (Progbar_update _ _ _) as [b' [e|]]; intros [= <-]; simpl;
    by rewrite length_insert.
Qed.

Lemma update_progress_bar_dict cls current values s s' :
  state_after (update_progress_bar cls current values s) = Some s' →
  dict s' = dict s ∧ length (heap s') = length (heap s).
Proof.
  unfold update_progress_bar, bind, getattr.
  destruct (dict s !! "prog_bar") as [v|];
    [|destruct (class_attr _ _); [|by intros [= <-]]].
  all: destruct (call_update _ _ _ s) as [r s1|e s1|] eqn:Hcall; [| |done].
  all: intros [= <-]; eapply call_update_dict; by rewrite Hcall.
Qed.

Lemma start_progress_bar_dict target width verbose interval metrics s s' k :
  state_after (start_progress_bar target width verbose interval metrics s)
    = Some s' →
  k ≠ "prog_bar" → dict s' !! k = dict s !! k.
Proof.
  intros Hafter Hk.
  destruct (Progbar_new target (default (VInt 30) width)
              (default (VInt 1) verbose) (default (VFloat float_0_05) interval)
              (default VNone metrics)) as [e|b] eqn:Hnew.
  - rewrite (start_progress_bar_raises _ _ _ _ _ _ e) in Hafter; [|done].
    by injection Hafter as <-.
  - rewrite (start_progress_bar_returns _ _ _ _ _ _ b) in Hafter; [|done].
    injection Hafter as <-. by apply lookup_insert_ne.
Qed.

(** ** Calling a method on an instance *)

Lemma invoke_absent name m s :
  dict s !! name = None → invoke name m s = m s.
Proof. intros Hd. unfold invoke. by rewrite Hd. Qed.

(** A call either reaches the method of the class or fails on the
    attribute that shadows it, leaving the state as it is. *)
Lemma invoke_cases name m s s' :
  state_after (invoke name m s) = Some s' →
  s' = s ∨ (dict s !! name = None ∧ state_after (m s) = Some s').
Proof.
  unfold invoke. destruct (dict s !! name) as [f|]; [|by right].
  destruct f; simpl; intros [= <-]; by left.
Qed.

Lemma exec_generate cls x kw s :
  exec cls (Generate x kw) s = invoke_generate cls x kw s.
Proof. done. Qed.

(** ** [generate] *)

Lemma invoke_generate_inherited cls x kw s :
  cls_generate cls = None → dict s !! "generate" = None →
  "self" ∉ kw.*1 → "x" ∉ kw.*1 →
  invoke_generate cls x kw s = Raise NotImplementedError s.
Proof.
  intros Hc Hd Hself Hx. unfold invoke_generate.
  rewrite invoke_absent, Hc; [|done]. by apply generate_binds.
Qed.

Lemma method_state_generate cls x kw s s' :
  cls_generate cls = None →
  state_after (method cls (Generate x kw) s) = Some s' → s' = s.
Proof. intros Hc. simpl. rewrite Hc. apply generate_state. Qed.

(** ** Instances of the base class *)

Lemma init_returns classifier s :
  __init__ classifier s
  = Return VNone {| dict := <["classifier" := classifier]> (dict s);
                    heap := heap s |}.
Proof.
  unfold __init__, bind. rewrite setattr_config; [done|].
  by apply (bool_decide_eq_false_1 _).
Qed.

Lemma new_Attack_returns classifier h :
  new_Attack classifier h
  = Return VNone {| dict := {["classifier" := classifier]}; heap := h |}.
Proof. unfold new_Attack. by rewrite init_returns. Qed.

Lemma new_Attack_state classifier h :
  Attack_state {| dict := {["classifier" := classifier]}; heap := h |}.
Proof.
  split; simpl.
  - intros k Hc _. by apply lookup_singleton_ne.
  - intros v. by rewrite lookup_singleton_ne.
Qed.

Lemma Attack_state_allow_list s :
  Attack_state s → allow_list Attack s ["classifier"].
Proof. intros [Hd _]. apply Attack_allow_list. by apply Hd. Qed.

(** No attribute of a base-class instance shadows a method. *)
Lemma Attack_state_methods c s :
  Attack_state s → dict s !! method_name c = None.
Proof. intros [Hd _]. apply Hd; by destruct c. Qed.

Lemma exec_Attack_method c s :
  Attack_state s → exec Attack c s = method Attack c s.
Proof. intros Hs. apply invoke_absent. by apply Attack_state_methods. Qed.

(** The dictionary [set_params] leaves on a base-class instance agrees with
    the old one everywhere but at [classifier]. *)
Lemma set_params_Attack_state kw s :
  Attack_state s →
  ∃ s', state_after (set_params Attack kw s) = Some s'
        ∧ heap s' = heap s
        ∧ ∀ k, k ≠ "classifier" → dict s' !! k = dict s !! k.
Proof.
  intros Hs. eexists. split.
  { apply (set_params_state _ ["classifier"]).
    by apply Attack_state_allow_list. }
  split; [done|]. simpl. intros k Hk. case_bool_decide; [done|].
  apply assign_allowed_frame. left. by intros ->%list_elem_of_singleton.
Qed.

(** Every call on a base-class instance stays inside the model and leaves a
    base-class instance. *)
Lemma exec_Attack_state c s :
  Attack_state s →
  ∃ s', state_after (exec Attack c s) = Some s' ∧ Attack_state s'.
Proof.
  intros Hs. rewrite exec_Attack_method; [|done]. pose proof Hs as [Hd Hbar].
  destruct c as [x kw|target width verbose interval metrics|current values|kw];
    simpl.
  - destruct (generate x kw s) as [r s1|e s1|] eqn:Hgen.
    + exists s1. split; [done|].
      by rewrite (generate_state x kw s s1); [|rewrite Hgen].
    + exists s1. split; [done|].
      by rewrite (generate_state x kw s s1); [|rewrite Hgen].
    + unfold generate, bind, bind_kwargs in Hgen.
      by destruct (bool_decide _).
  - destruct (Progbar_new target (default (VInt 30) width)
                (default (VInt 1) verbose) (default (VFloat float_0_05) interval)
                (default VNone metrics)) as [e|b] eqn:Hnew.
    + rewrite (start_progress_bar_raises _ _ _ _ _ _ e); [by exists s|done].
    + rewrite (start_progress_bar_returns _ _ _ _ _ _ b); [|done].
      eexists; split; [done|]. split; simpl.
      * intros k Hc Hp. rewrite lookup_insert_ne; [by apply Hd|done].
      * intros v. rewrite lookup_insert_eq. intros [= <-].
        eexists; split; [done|]. rewrite length_app. simpl. lia.
  - destruct (dict s !! "prog_bar") as [v|] eqn:Hv.
    + destruct (Hbar v eq_refl) as (p & -> & Hp).
      destruct (lookup_lt_is_Some_2 _ _ Hp) as [b Hb].
      rewrite (update_progress_bar_delegates _ _ _ _ p b); [|done..].
      eexists; split; [by destruct (Progbar_update _ _ _).2|].
      split; simpl; [done|]. intros v Hv'. rewrite Hv in Hv'.
      injection Hv' as <-. exists p. by rewrite length_insert.
    + rewrite update_progress_bar_missing; [by exists s|done].
  - destruct (set_params_Attack_state kw s Hs) as (s' & Hafter & Hheap & Hsame).
    exists s'. split; [done|]. split.
    + intros k Hc Hp. rewrite Hsame; [by apply Hd|done].
    + intros v. rewrite Hsame, Hheap; [apply Hbar|done].
Qed.

(** Without a call of [start_progress_bar] the instance gets no [prog_bar]. *)
Lemma exec_Attack_no_prog_bar c s :
  is_start_progress_bar c = false →
  Attack_state s ∧ dict s !! "prog_bar" = None →
  ∃ s', state_after (exec Attack c s) = Some s'
        ∧ Attack_state s' ∧ dict s' !! "prog_bar" = None.
Proof.
  intros Hc [Hs Hnone].
  destruct (exec_Attack_state c s Hs) as (s' & Hexec & Hs').
  exists s'. split; [done|]. split; [done|].
  rewrite exec_Attack_method in Hexec; [|done].
  destruct c as [x kw|target width verbose interval metrics|current values|kw];
    simpl in *; [|done| |].
  - apply generate_state in Hexec as ->; done.
  - apply update_progress_bar_dict in Hexec as [-> _]; done.
  - destruct (set_params_Attack_state kw s Hs) as (s1 & Hafter & _ & Hsame).
    rewrite Hexec in Hafter. injection Hafter as <-.
    by rewrite Hsame.
Qed.

(** A property every permitted call keeps holds after any sequence of
    them. *)
Lemma run_preserves cls (P : state → Prop) (permitted : call → bool) :
  (∀ c s, permitted c = true → P s →
          ∃ s', state_after (exec cls c s) = Some s' ∧ P s') →
  ∀ cs s, forallb permitted cs = true → P s →
          ∃ s', run cls cs s = Some s' ∧ P s'.
Proof.
  intros Hstep cs. induction cs as [|c cs IH]; intros s Hcs Hs.
  - by exists s.
  - simpl in Hcs. apply andb_prop in Hcs as [Hc Hcs].
    destruct (Hstep c s Hc Hs) as (s1 & Hexec & Hs1).
    simpl. rewrite Hexec. by apply IH.
Qed.

Lemma run_Attack_state cs s :
  Attack_state s → ∃ s', run Attack cs s = Some s' ∧ Attack_state s'.
Proof.
  intros Hs. apply (run_preserves Attack Attack_state (λ _, true)); [|
    by induction cs|done].
  intros c s0 _. apply exec_Attack_state.
Qed.

(** Every instance of the base class, however it was used, has the
    allow-list ["classifier"]. *)
Lemma Attack_instances_allow_list classifier h cs :
  ∃ s0 s, new_Attack classifier h = Return VNone s0
          ∧ run Attack cs s0 = Some s
          ∧ allow_list Attack s ["classifier"].
Proof.
  destruct (run_Attack_state cs _ (new_Attack_state classifier h))
    as (s & Hrun & Hs).
  eexists _, s. split; [apply new_Attack_returns|]. split; [done|].
  by apply Attack_state_allow_list.
Qed.

(** * The claims *)

(** C1, as amended.  [set_params] assigns exactly the allowed keywords.
    On an instance whose allow-list is a list of configuration names [L]
    (every instance of the base class has one,
    [Attack_instances_allow_list]), and for keywords with distinct names
    none of which is [self], the call returns [True]; afterwards every
    keyword whose name is in [L] is an attribute with the supplied value,
    every attribute whose name is not in [L] is as before, and so is every
    attribute the call does not mention. *)
Theorem set_params_assigns_allowed cls s L kw :
  allow_list cls s L → NoDup kw.*1 → "self" ∉ kw.*1 →
  ∃ s', set_params cls kw s = Return (VBool true) s'
        ∧ (∀ k v, (k, v) ∈ kw → k ∈ L → dict s' !! k = Some v)
        ∧ (∀ k, k ∉ L → dict s' !! k = dict s !! k)
        ∧ (∀ k, k ∉ kw.*1 → dict s' !! k = dict s !! k)
        ∧ heap s' = heap s
        ∧ allow_list cls s' L.
Proof.
  intros Hs Hnd Hself. eexists. split; [by apply set_params_returns|]. simpl.
  split; [|split; [|split; [|split]]].
  - intros k v Hin HL. by apply assign_allowed_assigned.
  - intros k Hk. apply assign_allowed_frame. by left.
  - intros k Hk. apply assign_allowed_frame. by right.
  - done.
  - apply (allow_list_same_lookup cls s); [done|]. simpl.
    apply assign_allowed_frame. left. intros Hin. destruct Hs as [_ HL].
    by destruct (proj1 (Forall_forall _ _) HL _ Hin).
Qed.

(** C2, as amended.  [set_params] does not fail on keywords that bind.
    For keywords none of which is named [self], known to the allow-list or
    not, the call returns [True]: on an instance of the base class in
    whatever state a sequence of calls has left it, and on any instance
    whose allow-list is a list of configuration names.  A keyword named
    [self] makes the call raise [TypeError] before anything is assigned. *)
Theorem set_params_never_fails :
  (∀ classifier h cs kw, "self" ∉ kw.*1 →
    ∃ s0 s s',
      new_Attack classifier h = Return VNone s0
      ∧ run Attack cs s0 = Some s
      ∧ set_params Attack kw s = Return (VBool true) s')
  ∧ (∀ cls s L kw, allow_list cls s L → "self" ∉ kw.*1 →
      ∃ s', set_params cls kw s = Return (VBool true) s')
  ∧ (∀ cls s kw, "self" ∈ kw.*1 → set_params cls kw s = Raise TypeError s).
Proof.
  split; [|split].
  - intros classifier h cs kw Hself.
    destruct (run_Attack_state cs _ (new_Attack_state classifier h))
      as (s & Hrun & Hs).
    eexists _, s, _. split; [apply new_Attack_returns|]. split; [done|].
    apply set_params_returns; [done|]. by apply Attack_state_allow_list.
  - intros cls s L kw Hs Hself. eexists. by apply set_params_returns.
  - intros cls s kw. apply set_params_self.
Qed.

(** C3, as amended.  [generate] is not implemented.  Called with an input
    and keywords none of which is named [self] or [x], [generate] raises
    [NotImplementedError] and changes nothing: on an instance of the base
    class in any state it can reach, and on an instance of any subclass
    that does not override [generate] (and has no attribute of its own
    under that name).  A keyword named [self] or [x] makes the call raise
    [TypeError] instead. *)
Theorem generate_not_implemented :
  (∀ classifier h cs x kw, "self" ∉ kw.*1 → "x" ∉ kw.*1 →
    ∃ s0 s,
      new_Attack classifier h = Return VNone s0
      ∧ run Attack cs s0 = Some s
      ∧ invoke_generate Attack x kw s = Raise NotImplementedError s)
  ∧ (∀ cls x kw s,
      cls_generate cls = None → dict s !! "generate" = None →
      "self" ∉ kw.*1 → "x" ∉ kw.*1 →
      invoke_generate cls x kw s = Raise NotImplementedError s)
  ∧ (∀ cls x kw s,
      cls_generate cls = None → dict s !! "generate" = None →
      "self" ∈ kw.*1 ∨ "x" ∈ kw.*1 →
      invoke_generate cls x kw s = Raise TypeError s).
Proof.
  split; [|split].
  - intros classifier h cs x kw Hself Hx.
    destruct (run_Attack_state cs _ (new_Attack_state classifier h))
      as (s & Hrun & [Hd _]).
    eexists _, s. split; [apply new_Attack_returns|]. split; [done|].
    apply invoke_generate_inherited; [done|by apply Hd|done..].
  - intros cls x kw s. apply invoke_generate_inherited.
  - intros cls x kw s Hc Hd Hin. unfold invoke_generate.
    rewrite invoke_absent, Hc; [|done]. unfold generate, bind.
    destruct Hin as [Hin|Hin].
    + rewrite (bind_kwargs_present _ _ _ "self"); [done| |done].
      apply list_elem_of_here.
    + rewrite (bind_kwargs_present _ _ _ "x"); [done| |done].
      apply list_elem_of_further, list_elem_of_here.
Qed.

(** C4.  The allow-list of a base-class instance contains ["classifier"]
    after construction and after every sequence of calls of [generate],
    [start_progress_bar], [update_progress_bar] and [set_params]. *)
Theorem attack_params_contains_classifier classifier h cs :
  ∃ s0 s items,
    new_Attack classifier h = Return VNone s0
    ∧ run Attack cs s0 = Some s
    ∧ getattr Attack "attack_params" s = Return (VList items) s
    ∧ VStr "classifier" ∈ items.
Proof.
  destruct (run_Attack_state cs _ (new_Attack_state classifier h))
    as (s & Hrun & Hs).
  apply Attack_state_allow_list in Hs as [Hget _].
  eexists _, s, _. split; [apply new_Attack_returns|].
  split; [done|]. split; [done|]. apply list_elem_of_here.
Qed.

(** C5.  The constructor stores the classifier it is given: [__init__]
    binds the attribute [classifier] to the very value passed in (a
    reference stays the same reference), and neither it nor the
    construction of an instance adds an object to the store. *)
Theorem init_stores_classifier cls classifier :
  (∀ s, ∃ s', __init__ classifier s = Return VNone s'
              ∧ getattr cls "classifier" s' = Return classifier s'
              ∧ heap s' = heap s)
  ∧ (∀ h, ∃ s', new_Attack classifier h = Return VNone s'
                ∧ dict s' = {["classifier" := classifier]}
                ∧ getattr cls "classifier" s' = Return classifier s'
                ∧ heap s' = h).
Proof.
  split.
  - intros s. eexists. split; [apply init_returns|]. split; [|done].
    unfold getattr. simpl. by rewrite lookup_insert_eq.
  - intros h. eexists. split; [apply new_Attack_returns|].
    split; [done|]. split; [|done].
    unfold getattr. simpl. by rewrite lookup_singleton_eq.
Qed.

(** C6, as amended.  After construction the attributes of an instance
    change only through [set_params] and [start_progress_bar]: an
    attribute that differs after a call was assigned either by
    [set_params], and is then a keyword of the call named in the
    allow-list, or by [start_progress_bar], and is then [prog_bar].
    [generate] (not overridden) and [update_progress_bar] change no
    attribute. *)
Theorem attributes_change_only_by_set_params_and_start cls s L c s' k :
  allow_list cls s L → cls_generate cls = None →
  state_after (exec cls c s) = Some s' →
  dict s' !! k ≠ dict s !! k →
  (∃ kw, c = SetParams kw ∧ k ∈ L ∧ k ∈ kw.*1)
  ∨ (is_start_progress_bar c = true ∧ k = "prog_bar").
Proof.
  intros Hs Hgen Hexec Hne.
  apply invoke_cases in Hexec as [->|[_ Hexec]]; [done|].
  destruct c as [x kw|target width verbose interval metrics|current values|kw].
  - apply method_state_generate in Hexec as ->; done.
  - right. split; [done|]. apply dec_stable. intros Hk. apply Hne.
    by eapply start_progress_bar_dict.
  - apply update_progress_bar_dict in Hexec as [Hd _]. by rewrite Hd in Hne.
  - left. exists kw. split; [done|]. simpl in Hexec.
    rewrite (set_params_state _ L) in Hexec; [|done].
    injection Hexec as <-. simpl in Hne.
    case_bool_decide; [done|]. by apply assign_allowed_changed in Hne.
Qed.

(** C8.  [set_params] is idempotent.  With no keyword the call changes
    nothing and returns [True].  With any keywords, a second call with the
    same keywords leaves the state the first call produced: on an instance
    of the base class in whatever state a sequence of calls has left it,
    and on any instance whose allow-list is a list of configuration names;
    when no keyword is named [self], both calls return [True]. *)
Theorem set_params_idempotent :
  (∀ cls s, set_params cls [] s = Return (VBool true) s)
  ∧ (∀ classifier h cs kw, ∃ s0 s s1,
      new_Attack classifier h = Return VNone s0
      ∧ run Attack cs s0 = Some s
      ∧ state_after (set_params Attack kw s) = Some s1
      ∧ state_after (set_params Attack kw s1) = Some s1)
  ∧ (∀ cls s L kw, allow_list cls s L →
      ∃ s1, state_after (set_params cls kw s) = Some s1
            ∧ state_after (set_params cls kw s1) = Some s1
            ∧ ("self" ∉ kw.*1 →
               set_params cls kw s = Return (VBool true) s1
               ∧ set_params cls kw s1 = Return (VBool true) s1)).
Proof.
  assert (Hidem : ∀ cls s L kw, allow_list cls s L →
      ∃ s1, state_after (set_params cls kw s) = Some s1
            ∧ state_after (set_params cls kw s1) = Some s1
            ∧ ("self" ∉ kw.*1 →
               set_params cls kw s = Return (VBool true) s1
               ∧ set_params cls kw s1 = Return (VBool true) s1)).
  { intros cls s L kw Hs.
    destruct (decide ("self" ∈ kw.*1)) as [Hself|Hself].
    - exists s. rewrite set_params_self; [|done]. by repeat split.
    - assert (Hs1 : allow_list cls
        {| dict := assign_allowed L (dict s) kw; heap := heap s |} L).
      { apply (allow_list_same_lookup cls s); [done|]. simpl.
        apply assign_allowed_frame. left. intros Hin. destruct Hs as [_ HL].
        by destruct (proj1 (Forall_forall _ _) HL _ Hin). }
      eexists. rewrite (set_params_returns _ L); [|done..].
      split; [done|].
      rewrite (set_params_returns _ L); [|done..]. simpl.
      by rewrite assign_allowed_idemp. }
  split; [done|]. split; [|done].
  intros classifier h cs kw.
  destruct (run_Attack_state cs _ (new_Attack_state classifier h))
    as (s & Hrun & Hs).
  destruct (Hidem Attack s ["classifier"] kw (Attack_state_allow_list s Hs))
    as (s1 & Hfirst & Hsecond & _).
  eexists _, s, s1. split; [apply new_Attack_returns|]. by repeat split.
Qed.

(** C9.  [update_progress_bar] before [start_progress_bar].  On an instance
    of the base class on which [start_progress_bar] was never called,
    whatever else was called, [update_progress_bar] raises
    [AttributeError]: the attribute [prog_bar] does not exist. *)
Theorem update_before_start_fails classifier h cs current values :
  forallb (λ c, negb (is_start_progress_bar c)) cs = true →
  ∃ s0 s,
    new_Attack classifier h = Return VNone s0
    ∧ run Attack cs s0 = Some s
    ∧ dict s !! "prog_bar" = None
    ∧ update_progress_bar Attack current values s = Raise AttributeError s.
Proof.
  intros Hcs.
  destruct (run_preserves Attack
              (λ s, Attack_state s ∧ dict s !! "prog_bar" = None)
              (λ c, negb (is_start_progress_bar c))) with
    (cs := cs) (s := {| dict := {["classifier" := classifier]}; heap := h |})
    as (s & Hrun & _ & Hnone).
  - intros c s Hc. apply exec_Attack_no_prog_bar. by apply negb_true_iff.
  - done.
  - split; [apply new_Attack_state|]. simpl. by apply lookup_singleton_ne.
  - eexists _, s. split; [apply new_Attack_returns|]. split; [done|].
    split; [done|]. by apply update_progress_bar_missing.
Qed.

(** C10.  The allow-list of the base class is invariant under
    [set_params].  On an instance whose allow-list is exactly
    ["classifier"], a call of [set_params], whether it returns or raises,
    leaves the attribute [attack_params] as it was (the name is not in the
    allow-list, so it is never assigned), and the allow-list is still
    ["classifier"]; and on an instance of the base class, in whatever
    state, after any sequence of [set_params] calls the instance has no
    [attack_params] of its own and its allow-list is ["classifier"]. *)
Theorem base_allow_list_invariant :
  (∀ s kw, allow_list Attack s ["classifier"] →
    ∃ s', state_after (set_params Attack kw s) = Some s'
          ∧ dict s' !! "attack_params" = dict s !! "attack_params"
          ∧ allow_list Attack s' ["classifier"])
  ∧ (∀ classifier h cs kws, ∃ s0 s s',
      new_Attack classifier h = Return VNone s0
      ∧ run Attack cs s0 = Some s
      ∧ run Attack (SetParams <$> kws) s = Some s'
      ∧ dict s' !! "attack_params" = None
      ∧ allow_list Attack s' ["classifier"]).
Proof.
  split.
  - intros s kw Hs. eexists.
    split; [by apply (set_params_state _ ["classifier"])|]. simpl.
    assert (Hsame : (if bool_decide ("self" ∈ kw.*1) then dict s
                     else assign_allowed ["classifier"] (dict s) kw)
                    !! "attack_params" = dict s !! "attack_params").
    { case_bool_decide; [done|]. apply assign_allowed_frame. left.
      by intros [=]%list_elem_of_singleton. }
    split; [done|]. by apply (allow_list_same_lookup Attack s).
  - intros classifier h cs kws.
    destruct (run_Attack_state cs _ (new_Attack_state classifier h))
      as (s & Hrun & Hs).
    destruct (run_Attack_state (SetParams <$> kws) s Hs) as (s' & Hrun' & Hs').
    eexists _, s, s'. split; [apply new_Attack_returns|].
    split; [done|]. split; [done|].
    split; [destruct Hs' as [Hd _]; by apply Hd|].
    by apply Attack_state_allow_list.
Qed.

End properties.

(** * The claims on the specification's examples *)

Lemma fresh_instance_allow_list :
  allow_list (PB := StubProgbar) Attack fresh_instance ["classifier"].
Proof.
  split; [reflexivity|].
  repeat constructor; [discriminate|]. by apply (bool_decide_eq_false_1 _).
Defined.

Lemma eps_instance_allow_list :
  allow_list EpsAttack fresh_instance ["classifier"; "eps"].
Proof.
  split; [reflexivity|].
  repeat constructor; try discriminate; by apply (bool_decide_eq_false_1 _).
Defined.

Lemma eps_foo_binds : "self" ∉ eps_foo.*1.
Proof. by apply (bool_decide_eq_false_1 _). Defined.

(** [set_params(eps=0.3, foo=7)] with [attack_params = ["classifier",
    "eps"]]: [eps] is 0.3, there is no [foo], the result is [True]. *)
Lemma set_params_assigns_allowed_witness :
  allow_list EpsAttack fresh_instance ["classifier"; "eps"]
  ∧ NoDup eps_foo.*1
  ∧ ("self" ∉ eps_foo.*1)
  ∧ ∃ s', set_params EpsAttack eps_foo fresh_instance = Return (VBool true) s'
          ∧ dict s' !! "eps" = Some (VFloat float_0_3)
          ∧ dict s' !! "foo" = None
          ∧ dict s' !! "classifier" = Some stub_classifier.
Proof.
  assert (Hnd : NoDup eps_foo.*1) by (by apply (bool_decide_unpack _)).
  split; [apply eps_instance_allow_list|]. split; [done|].
  split; [apply eps_foo_binds|].
  destruct (set_params_assigns_allowed EpsAttack fresh_instance
              ["classifier"; "eps"] eps_foo eps_instance_allow_list Hnd
              eps_foo_binds)
    as (s' & Hret & Hassigned & Hframe & Hother & _).
  exists s'. split; [done|]. split; [|split].
  - apply Hassigned; [apply list_elem_of_here|].
    apply list_elem_of_further, list_elem_of_here.
  - rewrite Hframe; [reflexivity|]. by apply (bool_decide_eq_false_1 _).
  - rewrite Hother; [reflexivity|]. by apply (bool_decide_eq_false_1 _).
Defined.

(** C1 as the specification states it fails.  On the base class,
    [set_params(self=1, classifier=c)] raises [TypeError] when the keywords
    are bound and [classifier] keeps its old value; on a class whose
    allow-list names [attack_params],
    [set_params(attack_params=["foo"], eps=0.3, foo=7)] drops the allowed
    [eps]. *)
Lemma set_params_not_exactly_allowed :
  (getattr (PB := StubProgbar) Attack "attack_params" fresh_instance
     = Return (VList (VStr <$> ["classifier"])) fresh_instance
   ∧ ¬ assigns_exactly_allowed Attack fresh_instance ["classifier"]
         self_classifier)
  ∧ (getattr SelfNamingAttack "attack_params" fresh_instance
       = Return (VList (VStr <$> ["attack_params"; "eps"])) fresh_instance
     ∧ ¬ assigns_exactly_allowed SelfNamingAttack fresh_instance
           ["attack_params"; "eps"] foo_then_eps_foo).
Proof.
  split; (split; [reflexivity|]); intros (s' & Hafter & Hassigned & _).
  - assert (Hold : state_after (set_params (PB := StubProgbar) Attack
                     self_classifier fresh_instance)
                   ≫= (λ st, dict st !! "classifier")
                   = Some stub_classifier) by reflexivity.
    rewrite Hafter in Hold. simpl in Hold.
    rewrite (Hassigned "classifier" (VRef 1%nat)) in Hold; [discriminate| |].
    + apply list_elem_of_further, list_elem_of_here.
    + apply list_elem_of_here.
  - assert (Hnone : state_after (set_params SelfNamingAttack
                      foo_then_eps_foo fresh_instance)
                    ≫= (λ st, dict st !! "eps") = None) by reflexivity.
    rewrite Hafter in Hnone. simpl in Hnone.
    rewrite (Hassigned "eps" (VFloat float_0_3)) in Hnone; [discriminate| |].
    + apply list_elem_of_further, list_elem_of_here.
    + apply list_elem_of_further, list_elem_of_here.
Qed.

Lemma set_params_never_fails_witness :
  allow_list (PB := StubProgbar) Attack fresh_instance ["classifier"]
  ∧ ("self" ∉ eps_foo.*1)
  ∧ ∃ s', set_params Attack eps_foo fresh_instance = Return (VBool true) s'.
Proof.
  split; [apply fresh_instance_allow_list|]. split; [apply eps_foo_binds|].
  exact (proj1 (proj2 set_params_never_fails) Attack fresh_instance
           ["classifier"] eps_foo fresh_instance_allow_list eps_foo_binds).
Defined.

(** C2 as the specification states it fails.  On the base class,
    [set_params(self=1)] raises [TypeError]; on a class whose allow-list
    names [attack_params], [set_params(attack_params=5, eps=0.3)] raises
    [TypeError] at the second keyword. *)
Lemma set_params_can_fail :
  ¬ returns_True (PB := StubProgbar) Attack fresh_instance [("self", VInt 1)]
  ∧ ¬ returns_True SelfNamingAttack fresh_instance
        [("attack_params", VInt 5); ("eps", VFloat float_0_3)].
Proof.
  split; intros [s' Hret].
  - assert (Hraise : set_params (PB := StubProgbar) Attack [("self", VInt 1)]
                       fresh_instance = Raise TypeError fresh_instance)
      by reflexivity.
    rewrite Hraise in Hret. discriminate Hret.
  - assert (Hraise : ∃ st, set_params SelfNamingAttack
                       [("attack_params", VInt 5); ("eps", VFloat float_0_3)]
                       fresh_instance = Raise TypeError st)
      by (eexists; reflexivity).
    destruct Hraise as [st Hraise]. rewrite Hraise in Hret. discriminate Hret.
Qed.

(** [generate([[0,0],[1,1]])] on an instance of a class that inherits
    [generate]. *)
Lemma generate_not_implemented_witness :
  cls_generate EpsAttack = None
  ∧ dict fresh_instance !! "generate" = None
  ∧ ("self" ∉ ([] : kwargs).*1) ∧ ("x" ∉ ([] : kwargs).*1)
  ∧ invoke_generate EpsAttack generate_input [] fresh_instance
    = Raise NotImplementedError fresh_instance.
Proof.
  assert (Hself : "self" ∉ ([] : kwargs).*1)
    by (by apply (bool_decide_eq_false_1 _)).
  assert (Hx : "x" ∉ ([] : kwargs).*1)
    by (by apply (bool_decide_eq_false_1 _)).
  split; [reflexivity|]. split; [reflexivity|]. split; [done|]. split; [done|].
  exact (proj1 (proj2 generate_not_implemented) EpsAttack generate_input []
           fresh_instance eq_refl eq_refl Hself Hx).
Defined.

(** C3 as the specification states it fails: [generate(X, x=1)] on the
    base class raises [TypeError], not [NotImplementedError]. *)
Lemma generate_keyword_x_is_TypeError :
  invoke_generate (PB := StubProgbar) Attack generate_input [("x", VInt 1)]
    fresh_instance = Raise TypeError fresh_instance
  ∧ invoke_generate (PB := StubProgbar) Attack generate_input [("x", VInt 1)]
      fresh_instance ≠ Raise NotImplementedError fresh_instance.
Proof.
  assert (Hraise : invoke_generate (PB := StubProgbar) Attack generate_input
                     [("x", VInt 1)] fresh_instance
                   = Raise TypeError fresh_instance) by reflexivity.
  split; [done|]. rewrite Hraise. discriminate.
Qed.

(** The attribute [start_progress_bar] assigns. *)
Lemma attributes_change_only_by_set_params_and_start_witness :
  let s' : @state StubProgbar :=
    {| dict := <["prog_bar" := VProgbar 0%nat]> (dict fresh_instance);
       heap := [StubBar (VInt 10) (VInt 0) VNone : @bar StubProgbar] |} in
  allow_list (PB := StubProgbar) Attack fresh_instance ["classifier"]
  ∧ cls_generate (PB := StubProgbar) Attack = None
  ∧ state_after (exec Attack start_10 fresh_instance) = Some s'
  ∧ dict s' !! "prog_bar" ≠ dict fresh_instance !! "prog_bar"
  ∧ ((∃ kw, start_10 = SetParams kw
            ∧ "prog_bar" ∈ ["classifier"] ∧ "prog_bar" ∈ kw.*1)
     ∨ (is_start_progress_bar start_10 = true ∧ "prog_bar" = "prog_bar")).
Proof.
  intros s'.
  assert (Hexec : state_after (exec Attack start_10 fresh_instance) = Some s')
    by reflexivity.
  assert (Hne : dict s' !! "prog_bar" ≠ dict fresh_instance !! "prog_bar")
    by discriminate.
  split; [apply fresh_instance_allow_list|]. split; [reflexivity|].
  split; [exact Hexec|]. split; [exact Hne|].
  exact (attributes_change_only_by_set_params_and_start Attack fresh_instance
           ["classifier"] start_10 s' "prog_bar" fresh_instance_allow_list
           eq_refl Hexec Hne).
Defined.

(** C6 as the specification states it fails on the base class:
    [start_progress_bar], which is not [set_params], gives the instance the
    attribute [prog_bar]. *)
Lemma start_progress_bar_mutates :
  ¬ only_set_params_mutates (PB := StubProgbar) Attack fresh_instance.
Proof.
  intros Hframe.
  specialize (Hframe start_10 _ eq_refl eq_refl).
  apply (f_equal (λ d, d !! "prog_bar")) in Hframe. discriminate Hframe.
Qed.

Lemma set_params_idempotent_witness :
  allow_list EpsAttack fresh_instance ["classifier"; "eps"]
  ∧ ∃ s1, state_after (set_params EpsAttack eps_foo fresh_instance) = Some s1
          ∧ state_after (set_params EpsAttack eps_foo s1) = Some s1
          ∧ ("self" ∉ eps_foo.*1 →
             set_params EpsAttack eps_foo fresh_instance
               = Return (VBool true) s1
             ∧ set_params EpsAttack eps_foo s1 = Return (VBool true) s1).
Proof.
  split; [apply eps_instance_allow_list|].
  exact (proj2 (proj2 set_params_idempotent) EpsAttack fresh_instance
           ["classifier"; "eps"] eps_foo eps_instance_allow_list).
Defined.

(** [update_progress_bar] after calls that are not [start_progress_bar],
    one of them an attempt to set [prog_bar] through [set_params]. *)
Lemma update_before_start_fails_witness :
  let cs := [SetParams [("prog_bar", VInt 1)]; Generate generate_input []] in
  forallb (λ c, negb (is_start_progress_bar c)) cs = true
  ∧ ∃ s0 s,
      new_Attack (PB := StubProgbar) stub_classifier [] = Return VNone s0
      ∧ run Attack cs s0 = Some s
      ∧ dict s !! "prog_bar" = None
      ∧ update_progress_bar Attack (VInt 5) (Some loss_values) s
        = Raise AttributeError s.
Proof.
  intros cs. split; [reflexivity|].
  exact (update_before_start_fails (PB := StubProgbar) stub_classifier [] cs
           (VInt 5) (Some loss_values) eq_refl).
Defined.

(** An attempt to replace the allow-list of a base-class instance. *)
Lemma base_allow_list_invariant_witness :
  let kw := [("attack_params", VList [VStr "foo"]); ("foo", VInt 7)] in
  allow_list (PB := StubProgbar) Attack fresh_instance ["classifier"]
  ∧ ∃ s', state_after (set_params Attack kw fresh_instance) = Some s'
          ∧ dict s' !! "attack_params" = dict fresh_instance !! "attack_params"
          ∧ allow_list Attack s' ["classifier"].
Proof.
  intros kw. split; [apply fresh_instance_allow_list|].
  exact (proj1 base_allow_list_invariant fresh_instance kw
           fresh_instance_allow_list).
Defined.

(** * Further properties of the methods *)

Section further_properties.
Context `{PB : Progbar}.
Implicit Types (cls : pyclass) (s : state) (L : list string) (kw : kwargs).

(** ** [set_params]: more on the dictionary it leaves *)

Lemma allow_list_assign_allowed cls s L kw h :
  allow_list cls s L →
  allow_list cls {| dict := assign_allowed L (dict s) kw; heap := h |} L.
Proof.
  intros Hs. apply (allow_list_same_lookup cls s); [done|]. simpl.
  apply assign_allowed_frame. left. intros Hin. destruct Hs as [_ HL].
  by destruct (proj1 (Forall_forall _ _) HL _ Hin).
Qed.

Lemma assign_allowed_app L d kw1 kw2 :
  assign_allowed L d (kw1 ++ kw2)%list
  = assign_allowed L (assign_allowed L d kw1) kw2.
Proof. unfold assign_allowed. by rewrite foldl_app. Qed.

Lemma assign_allowed_perm L d kw kw' :
  NoDup kw.*1 → kw ≡ₚ kw' →
  assign_allowed L d kw = assign_allowed L d kw'.
Proof.
  intros Hnd Hperm. apply map_eq. intros k.
  assert (Hnd' : NoDup kw'.*1) by (by rewrite <- Hperm).
  destruct (decide (k ∈ L)) as [HL|HL];
    [destruct (decide (k ∈ kw.*1)) as [Hin|Hin]|].
  - apply list_elem_of_fmap in Hin as ([k' v] & -> & Hin). simpl.
    rewrite (assign_allowed_assigned L kw k' v); [|done..].
    symmetry. apply assign_allowed_assigned; [done| |done].
    by rewrite <- Hperm.
  - rewrite !assign_allowed_frame; [done|right..]; [|done].
    by rewrite <- Hperm.
  - rewrite !assign_allowed_frame; [done|by left..].
Qed.

Lemma assign_allowed_is_Some L kw k : ∀ d,
  k ∈ L → k ∈ kw.*1 → is_Some (assign_allowed L d kw !! k).
Proof.
  induction kw as [|[k0 v0] kw IH]; intros d HL Hin.
  - by apply elem_of_nil in Hin.
  - rewrite assign_allowed_cons.
    destruct (decide (k ∈ kw.*1)) as [Hrest|Hrest]; [by apply IH|].
    rewrite fmap_cons in Hin. apply elem_of_cons in Hin as [->|Hin]; [|done].
    rewrite assign_allowed_frame; [|by right].
    rewrite bool_decide_eq_true_2; [|done]. simpl.
    rewrite lookup_insert_eq. by eexists.
Qed.

(** X1.  The order of the keywords does not matter.  On an instance whose
    allow-list is a list of configuration names, two calls of [set_params]
    whose keywords (with distinct names) are the same up to order have the
    same outcome, result and state, and neither leaves the model. *)
Theorem set_params_order_irrelevant cls s L kw kw' :
  allow_list cls s L → NoDup kw.*1 → kw ≡ₚ kw' →
  set_params cls kw' s = set_params cls kw s
  ∧ ∃ s', state_after (set_params cls kw s) = Some s'.
Proof.
  intros Hs Hnd Hperm. split; [|eexists; by apply (set_params_state _ L)].
  destruct (decide ("self" ∈ kw.*1)) as [Hself|Hself].
  - rewrite !set_params_self; [done..|]. by rewrite <- Hperm.
  - rewrite !(set_params_returns _ L); [|done..|by rewrite <- Hperm|done].
    by rewrite (assign_allowed_perm L _ kw kw').
Qed.

(** X2.  Splitting a call.  On an instance whose allow-list is a list of
    configuration names, keywords with distinct names, none of them
    [self], can be passed in one call of [set_params] or in two calls, in
    either order: every call returns [True] and the final state is the
    same. *)
Theorem set_params_split cls s L kw1 kw2 :
  allow_list cls s L → NoDup (kw1 ++ kw2)%list.*1 →
  "self" ∉ (kw1 ++ kw2)%list.*1 →
  ∃ s1 s1' s2,
    set_params cls kw1 s = Return (VBool true) s1
    ∧ set_params cls kw2 s1 = Return (VBool true) s2
    ∧ set_params cls kw2 s = Return (VBool true) s1'
    ∧ set_params cls kw1 s1' = Return (VBool true) s2
    ∧ set_params cls (kw1 ++ kw2)%list s = Return (VBool true) s2.
Proof.
  intros Hs Hnd Hself.
  assert (Hself1 : "self" ∉ kw1.*1)
    by (intros Hin; apply Hself; rewrite fmap_app, elem_of_app; by left).
  assert (Hself2 : "self" ∉ kw2.*1)
    by (intros Hin; apply Hself; rewrite fmap_app, elem_of_app; by right).
  eexists _, _, _. split; [by apply set_params_returns|].
  split; [|split; [by apply set_params_returns|split]].
  - rewrite (set_params_returns _ L);
      [|done|by apply allow_list_assign_allowed].
    simpl. by rewrite <- assign_allowed_app.
  - rewrite (set_params_returns _ L);
      [|done|by apply allow_list_assign_allowed].
    simpl. rewrite <- assign_allowed_app.
    rewrite (assign_allowed_perm L _ (kw1 ++ kw2)%list (kw2 ++ kw1)%list);
      [done..|].
    apply Permutation_app_comm.
  - by apply set_params_returns.
Qed.

(** X3.  A later call wins.  On an instance whose allow-list is a list of
    configuration names [L], after [set_params] with keywords [kw1] and
    then with keywords [kw2] (distinct names in each, none of them
    [self]), a keyword of the second call named in [L] has the second
    call's value, a keyword named in [L] of the first call alone has the
    first call's value, and every other attribute is as before the two
    calls. *)
Theorem set_params_later_call_wins cls s L kw1 kw2 :
  allow_list cls s L → NoDup kw1.*1 → NoDup kw2.*1 →
  "self" ∉ kw1.*1 → "self" ∉ kw2.*1 →
  ∃ s1 s2,
    set_params cls kw1 s = Return (VBool true) s1
    ∧ set_params cls kw2 s1 = Return (VBool true) s2
    ∧ (∀ k v, (k, v) ∈ kw2 → k ∈ L → dict s2 !! k = Some v)
    ∧ (∀ k v, (k, v) ∈ kw1 → k ∈ L → k ∉ kw2.*1 → dict s2 !! k = Some v)
    ∧ (∀ k, k ∉ L ∨ ((k ∉ kw1.*1) ∧ (k ∉ kw2.*1)) →
           dict s2 !! k = dict s !! k).
Proof.
  intros Hs Hnd1 Hnd2 Hself1 Hself2.
  eexists _, _. split; [by apply set_params_returns|].
  split; [by apply set_params_returns; [|apply allow_list_assign_allowed]|].
  simpl. split; [|split].
  - intros k v Hin HL. by apply assign_allowed_assigned.
  - intros k v Hin HL Hout. rewrite assign_allowed_frame; [|by right].
    by apply assign_allowed_assigned.
  - intros k [HL|[Hout1 Hout2]].
    + rewrite !assign_allowed_frame; [done|by left..].
    + rewrite !assign_allowed_frame; [done|by right..].
Qed.

(** X4.  Attributes are created, never removed.  On an instance whose
    allow-list is a list of configuration names [L], after [set_params],
    whether it returned or raised, the instance has the attributes it had
    before and, beside them, exactly the keywords of the call that [L]
    names, and these only if no keyword is named [self]. *)
Theorem set_params_attribute_names cls s L kw :
  allow_list cls s L →
  ∃ s', state_after (set_params cls kw s) = Some s'
        ∧ ∀ k, is_Some (dict s' !! k)
               ↔ is_Some (dict s !! k)
                 ∨ (("self" ∉ kw.*1) ∧ k ∈ L ∧ k ∈ kw.*1).
Proof.
  intros Hs. eexists. split; [by apply (set_params_state _ L)|]. simpl.
  intros k. case_bool_decide as Hself.
  { split; [by left|]. by intros [?|[? _]]. }
  destruct (decide (k ∈ L ∧ k ∈ kw.*1)) as [[HL Hin]|Hout].
  - split; [by right|]. intros _. by apply assign_allowed_is_Some.
  - rewrite assign_allowed_frame.
    + split; [by left|]. by intros [?|[_ ?]].
    + apply not_and_l in Hout. done.
Qed.

(** ** The progress bar and the store *)

(** [update_progress_bar] touches no bar but the one [prog_bar] refers
    to. *)
Lemma update_progress_bar_heap cls current values s s' (q : nat) :
  state_after (update_progress_bar cls current values s) = Some s' →
  dict s !! "prog_bar" ≠ Some (VProgbar q) →
  heap s' !! q = heap s !! q.
Proof.
  unfold update_progress_bar, bind, getattr. intros Hafter Hq.
  destruct (dict s !! "prog_bar") as [v|]; [|by injection Hafter as <-].
  destruct v; simpl in Hafter; try (by injection Hafter as <-); try done.
  destruct (heap s !! p) as [b|]; [|done].
  assert (p ≠ q) by congruence.
  destruct (Progbar_update _ _ _) as [b' [e|]]; injection Hafter as <-; simpl;
    by apply list_lookup_insert_ne.
Qed.

(** [set_params] leaves the store alone, also when it raises. *)
Lemma set_params_heap cls kw s s' :
  state_after (set_params cls kw s) = Some s' → heap s' = heap s.
Proof.
  destruct (decide ("self" ∈ kw.*1)) as [Hself|Hself].
  { rewrite set_params_self; [|done]. by intros [= <-]. }
  revert s s'. induction kw as [|[k v] kw IH]; intros s s'.
  - by intros [= <-].
  - assert (Hrest : "self" ∉ kw.*1).
    { intros Hin. apply Hself. rewrite fmap_cons. by right. }
    rewrite set_params_cons; [|done].
    assert (Hget : ∀ o, getattr cls "attack_params" s = o →
              match o with Return _ s1 | Raise _ s1 => s1 = s | Outside => True end).
    { intros o <-. unfold getattr.
      destruct (dict s !! _); [done|]. by destruct (class_attr _ _). }
    specialize (Hget _ eq_refl).
    destruct (getattr _ _ _) as [allowed s1|e s1|]; [subst s1| |done].
    + assert (Hin : ∀ o, py_in k allowed s = o →
                match o with Return _ s2 | Raise _ s2 => s2 = s | Outside => True end).
      { intros o <-. destruct allowed; simpl; try done;
          by destruct (items_contain _ _). }
      specialize (Hin _ eq_refl).
      destruct (py_in _ _ _) as [[] s2|e s2|]; [subst s2|subst s2| |done].
      * unfold setattr. destruct (bool_decide _); [done|].
        intros Hafter. by rewrite (IH Hrest _ _ Hafter).
      * by apply IH.
      * subst s2. by intros [= <-].
    + subst s1. by intros [= <-].
Qed.

(** X5.  Starting the progress bar again.  Every successful
    [start_progress_bar] creates a new bar at a fresh place of the store
    and makes [prog_bar] refer to it; the bars created earlier stay in the
    store as they were, and a following [update_progress_bar] changes none
    of them and no attribute. *)
Theorem start_progress_bar_fresh_bar target width verbose interval metrics s b :
  Progbar_new target (default (VInt 30) width) (default (VInt 1) verbose)
    (default (VFloat float_0_05) interval) (default VNone metrics) = inr b →
  ∃ s', start_progress_bar target width verbose interval metrics s
        = Return VNone s'
    ∧ dict s' !! "prog_bar" = Some (VProgbar (length (heap s)))
    ∧ heap s !! length (heap s) = None
    ∧ heap s' !! length (heap s) = Some b
    ∧ (∀ q, (q < length (heap s))%nat → heap s' !! q = heap s !! q)
    ∧ (∀ cls current values s'',
         state_after (update_progress_bar cls current values s') = Some s'' →
         dict s'' = dict s'
         ∧ ∀ q, (q < length (heap s))%nat → heap s'' !! q = heap s !! q).
Proof.
  intros Hnew. eexists. split; [by apply start_progress_bar_returns|]. simpl.
  split; [by apply lookup_insert_eq|].
  split; [by apply lookup_ge_None_2|].
  split; [by apply list_lookup_middle|].
  split; [intros q Hq; by apply lookup_app_l|].
  intros cls current values s'' Hafter.
  split; [by apply update_progress_bar_dict in Hafter as [-> _]|].
  intros q Hq.
  rewrite (update_progress_bar_heap _ _ _ _ _ q Hafter); simpl.
  - by apply lookup_app_l.
  - rewrite lookup_insert_eq. intros [= Heq]. lia.
Qed.

(** X6.  A run of updates.  When [prog_bar] refers to the bar [b] at place
    [p] of the store and the instance has no attribute of its own named
    [update_progress_bar], a sequence of [update_progress_bar] calls,
    whether some of them raise or not, leaves the attributes as they were
    and the store as it was except at [p], where the bar is [b] taken
    through the library's [update] once for each call, in order and with
    the arguments of the call. *)
Theorem update_progress_bar_sequence cls ups : ∀ s p b,
  dict s !! "update_progress_bar" = None →
  dict s !! "prog_bar" = Some (VProgbar p) → heap s !! p = Some b →
  run cls ((λ u, UpdateProgressBar u.1 u.2) <$> ups) s
  = Some {| dict := dict s;
            heap := <[p := foldl (λ b u,
                              (Progbar_update b u.1 (default VNone u.2)).1)
                            b ups]> (heap s) |}.
Proof.
  induction ups as [|[current values] ups IH]; intros s p b Hm Hd Hb; simpl.
  - rewrite list_insert_id; [|done]. by destruct s.
  - unfold exec. rewrite invoke_absent; [|done]. simpl.
    rewrite (update_progress_bar_delegates _ _ _ _ p b); [|done..].
    pose proof (lookup_lt_Some _ _ _ Hb) as Hp.
    set (b1 := (Progbar_update b current (default VNone values)).1).
    assert (Hstep : ∀ s1 : state,
      s1 = {| dict := dict s; heap := <[p := b1]> (heap s) |} →
      run cls ((λ u, UpdateProgressBar u.1 u.2) <$> ups) s1
      = Some {| dict := dict s;
                heap := <[p := foldl (λ b u,
                              (Progbar_update b u.1 (default VNone u.2)).1)
                            b1 ups]> (heap s) |}).
    { intros s1 ->. rewrite (IH _ p b1); simpl;
        [by rewrite list_insert_insert_eq|done..|].
      by apply list_lookup_insert_eq. }
    destruct (Progbar_update b current (default VNone values)).2;
      simpl; by apply Hstep.
Qed.

Lemma exec_other_bars cls c s s' :
  cls_generate cls = None →
  state_after (exec cls c s) = Some s' →
  (length (heap s) ≤ length (heap s'))%nat
  ∧ ∀ q, (q < length (heap s))%nat →
         dict s !! "prog_bar" ≠ Some (VProgbar q) →
         heap s' !! q = heap s !! q.
Proof.
  intros Hgen Hafter.
  apply invoke_cases in Hafter as [->|[_ Hafter]]; [done|].
  destruct c as [x kw|target width verbose interval metrics|current values|kw].
  - by apply method_state_generate in Hafter as ->.
  - simpl in Hafter.
    destruct (Progbar_new target (default (VInt 30) width)
                (default (VInt 1) verbose) (default (VFloat float_0_05) interval)
                (default VNone metrics)) as [e|b] eqn:Hnew.
    + rewrite (start_progress_bar_raises _ _ _ _ _ _ e) in Hafter; [|done].
      by injection Hafter as <-.
    + rewrite (start_progress_bar_returns _ _ _ _ _ _ b) in Hafter; [|done].
      injection Hafter as <-. simpl. split.
      * rewrite length_app. lia.
      * intros q Hq _. by apply lookup_app_l.
  - simpl in Hafter. split.
    + apply update_progress_bar_dict in Hafter as [_ Hlen]. lia.
    + intros q _ Hq. by eapply update_progress_bar_heap.
  - apply set_params_heap in Hafter. by rewrite Hafter.
Qed.

(** ** Instances of the base class, again *)

Lemma exec_Attack_prog_bar c s s' :
  Attack_state s →
  state_after (exec Attack c s) = Some s' →
  is_Some (dict s !! "classifier") →
  is_Some (dict s' !! "classifier")
  ∧ (dict s' !! "prog_bar" = dict s !! "prog_bar"
     ∨ dict s' !! "prog_bar" = Some (VProgbar (length (heap s)))).
Proof.
  intros Hs Hafter Hc. rewrite exec_Attack_method in Hafter; [|done].
  destruct c as [x kw|target width verbose interval metrics|current values|kw];
    simpl in Hafter.
  - apply generate_state in Hafter as ->. by split; [|left].
  - destruct (Progbar_new target (default (VInt 30) width)
                (default (VInt 1) verbose) (default (VFloat float_0_05) interval)
                (default VNone metrics)) as [e|b] eqn:Hnew.
    + rewrite (start_progress_bar_raises _ _ _ _ _ _ e) in Hafter; [|done].
      injection Hafter as <-. by split; [|left].
    + rewrite (start_progress_bar_returns _ _ _ _ _ _ b) in Hafter; [|done].
      injection Hafter as <-. simpl. split.
      * by rewrite lookup_insert_ne.
      * right. by apply lookup_insert_eq.
  - apply update_progress_bar_dict in Hafter as [-> _]. by split; [|left].
  - rewrite (set_params_state _ ["classifier"]) in Hafter;
      [|by apply Attack_state_allow_list].
    injection Hafter as <-. simpl. case_bool_decide; [by split; [|left]|].
    split.
    + destruct (decide ("classifier" ∈ kw.*1)) as [Hin|Hout].
      * apply assign_allowed_is_Some; [apply list_elem_of_here|done].
      * rewrite assign_allowed_frame; [done|by right].
    + left. apply assign_allowed_frame. left.
      by intros [=]%list_elem_of_singleton.
Qed.

(** X7.  What an instance of the base class looks like.  After
    construction and any sequence of calls, the instance has a
    [classifier], it has no attribute other than [classifier] and
    [prog_bar], [prog_bar] (if there) refers to a bar of the store that was
    created after the instance, and the bars that were in the store when
    the instance was constructed are all there, unchanged. *)
Theorem Attack_instance_invariant classifier h cs :
  ∃ s0 s,
    new_Attack classifier h = Return VNone s0
    ∧ run Attack cs s0 = Some s
    ∧ is_Some (dict s !! "classifier")
    ∧ (∀ k, is_Some (dict s !! k) → k = "classifier" ∨ k = "prog_bar")
    ∧ (∀ v, dict s !! "prog_bar" = Some v →
            ∃ p b, v = VProgbar p ∧ (length h ≤ p)%nat ∧ heap s !! p = Some b)
    ∧ (∀ (q : nat) b, h !! q = Some b → heap s !! q = Some b).
Proof.
  set (P := λ s : state,
    Attack_state s
    ∧ is_Some (dict s !! "classifier")
    ∧ (length h ≤ length (heap s))%nat
    ∧ (∀ p, dict s !! "prog_bar" = Some (VProgbar p) → (length h ≤ p)%nat)
    ∧ (∀ (q : nat) b, h !! q = Some b → heap s !! q = Some b)).
  destruct (run_preserves Attack P (λ _, true)) with
    (cs := cs) (s := {| dict := {["classifier" := classifier]}; heap := h |})
    as (s & Hrun & [Hd Hbar] & Hc & Hlen & Hnew & Hold).
  - intros c s _ (Hs & Hc & Hlen & Hnew & Hold).
    destruct (exec_Attack_state c s Hs) as (s' & Hafter & Hs').
    exists s'. split; [done|].
    destruct (exec_Attack_prog_bar c s s' Hs Hafter Hc) as [Hc' Hbar'].
    destruct (exec_other_bars Attack c s s' eq_refl Hafter) as [Hlen' Hkeep].
    split; [done|]. split; [done|]. split; [lia|]. split.
    + intros p Hp. destruct Hbar' as [Hsame|Hfresh].
      * apply Hnew. by rewrite <- Hsame.
      * rewrite Hfresh in Hp. injection Hp as <-. done.
    + intros q b Hq. pose proof (lookup_lt_Some _ _ _ Hq) as Hlt.
      rewrite Hkeep; [by apply Hold|lia|].
      intros Hp. apply Hnew in Hp. lia.
  - by induction cs.
  - split; [apply new_Attack_state|]. simpl.
    split; [rewrite lookup_singleton_eq; by eexists|].
    split; [done|]. split; [|done].
    intros p. by rewrite lookup_singleton_ne.
  - eexists _, s. split; [apply new_Attack_returns|]. split; [done|].
    split; [done|]. split; [|split; [|done]].
    + intros k Hk. destruct (decide (k = "classifier")) as [|Hk1]; [by left|].
      destruct (decide (k = "prog_bar")) as [|Hk2]; [by right|].
      rewrite (Hd k Hk1 Hk2) in Hk. by destruct Hk.
    + intros v Hv. destruct (Hbar v Hv) as (p & -> & Hp).
      destruct (lookup_lt_is_Some_2 _ _ Hp) as [b Hb].
      exists p, b. split; [done|]. split; [by apply Hnew|done].
Qed.


(** X9.  Configuring does not disturb the progress bar.  On an instance
    whose allow-list is a list of configuration names that does not
    include [prog_bar], [set_params] (no keyword named [self]) and
    [update_progress_bar] can be called in either order: the update has
    the same outcome, [set_params] returns [True], and the final state is
    the same. *)
Theorem set_params_commutes_with_update cls s L kw current values :
  allow_list cls s L → "prog_bar" ∉ L → "self" ∉ kw.*1 →
  ∃ s1, set_params cls kw s = Return (VBool true) s1
    ∧ match update_progress_bar cls current values s with
      | Return r s2 =>
          ∃ s3, update_progress_bar cls current values s1 = Return r s3
                ∧ set_params cls kw s2 = Return (VBool true) s3
      | Raise e s2 =>
          ∃ s3, update_progress_bar cls current values s1 = Raise e s3
                ∧ set_params cls kw s2 = Return (VBool true) s3
      | Outside => update_progress_bar cls current values s1 = Outside
      end.
Proof.
  intros Hs Hbar Hself. eexists. split; [by apply set_params_returns|].
  assert (Hsame : assign_allowed L (dict s) kw !! "prog_bar"
                  = dict s !! "prog_bar")
    by (apply assign_allowed_frame; by left).
  unfold update_progress_bar, bind, getattr. simpl. rewrite Hsame.
  destruct (dict s !! "prog_bar") as [v|].
  - destruct v; simpl;
      try (eexists; split; [done|]; by apply set_params_returns); try done.
    destruct (heap s !! p) as [b|]; [|done].
    destruct (Progbar_update _ _ _) as [b' [e|]]; simpl;
      (eexists; split; [done|]);
      rewrite (set_params_returns _ L); try done;
      by apply (allow_list_same_lookup cls s).
  - eexists; split; [done|]. by apply set_params_returns.
Qed.

(** ** [set_params] and an allow-list that is not as declared *)

(** X10.  An allow-list that is no container.  When [attack_params] on the
    instance is [None], a boolean or a number, [set_params] with at least
    one keyword raises [TypeError] at the first [in] test and assigns
    nothing; with no keyword it still returns [True]. *)
Theorem set_params_allow_list_not_iterable cls s v key value kw :
  dict s !! "attack_params" = Some v →
  v = VNone ∨ (∃ b, v = VBool b) ∨ (∃ n, v = VInt n) ∨ (∃ x, v = VFloat x) →
  set_params cls ((key, value) :: kw) s = Raise TypeError s
  ∧ set_params cls [] s = Return (VBool true) s.
Proof.
  intros Hd Hv. split; [|done].
  destruct (decide ("self" ∈ ((key, value) :: kw).*1)) as [Hself|Hself].
  { by apply set_params_self. }
  rewrite set_params_cons; [|done]. unfold getattr. rewrite Hd.
  by destruct Hv as [->|[[b ->]|[[n ->]|[x ->]]]].
Qed.

(** X11.  The allow-list is read again for every keyword.  When the
    allow-list names [attack_params] itself, a keyword [attack_params]
    with a list of configuration names [L'] replaces the allow-list on the
    instance at once: the keywords that follow in the same call (none of
    them named [self]) are accepted or dropped by [L'], not by the list
    the call started with. *)
Theorem set_params_rereads_allow_list cls s L L' kw :
  getattr cls "attack_params" s = Return (VList (VStr <$> L)) s →
  "attack_params" ∈ L → Forall config_name L' → "self" ∉ kw.*1 →
  set_params cls (("attack_params", VList (VStr <$> L')) :: kw) s
  = Return (VBool true)
      {| dict := assign_allowed L'
                   (<["attack_params" := VList (VStr <$> L')]> (dict s)) kw;
         heap := heap s |}.
Proof.
  intros Hget Hin HL' Hself.
  rewrite set_params_cons, Hget, py_in_names.
  - rewrite bool_decide_eq_true_2; [|done].
    rewrite setattr_config; [|by apply (bool_decide_eq_false_1 _)].
    rewrite (set_params_returns _ L'); [done..|]. split; [|done].
    unfold getattr. simpl. by rewrite lookup_insert_eq.
  - rewrite fmap_cons. simpl. by intros [[=]|?]%elem_of_cons.
Qed.

End further_properties.

(** * The further properties on examples *)

Lemma set_params_order_irrelevant_witness :
  let kw := [("eps", VFloat float_0_3); ("classifier", VRef 1%nat)] in
  let kw' := [("classifier", VRef 1%nat); ("eps", VFloat float_0_3)] in
  allow_list EpsAttack fresh_instance ["classifier"; "eps"]
  ∧ NoDup kw.*1
  ∧ kw ≡ₚ kw'
  ∧ set_params EpsAttack kw' fresh_instance
    = set_params EpsAttack kw fresh_instance
  ∧ ∃ s', state_after (set_params EpsAttack kw fresh_instance) = Some s'.
Proof.
  intros kw kw'.
  assert (Hnd : NoDup kw.*1) by (by apply (bool_decide_unpack _)).
  assert (Hperm : kw ≡ₚ kw') by apply perm_swap.
  split; [apply eps_instance_allow_list|]. split; [done|]. split; [done|].
  exact (set_params_order_irrelevant EpsAttack fresh_instance
           ["classifier"; "eps"] kw kw' eps_instance_allow_list Hnd Hperm).
Defined.

Lemma set_params_split_witness :
  let kw1 := [("eps", VFloat float_0_3)] in
  let kw2 := [("foo", VInt 7)] in
  allow_list EpsAttack fresh_instance ["classifier"; "eps"]
  ∧ NoDup (kw1 ++ kw2)%list.*1
  ∧ ("self" ∉ (kw1 ++ kw2)%list.*1)
  ∧ ∃ s1 s1' s2,
      set_params EpsAttack kw1 fresh_instance = Return (VBool true) s1
      ∧ set_params EpsAttack kw2 s1 = Return (VBool true) s2
      ∧ set_params EpsAttack kw2 fresh_instance = Return (VBool true) s1'
      ∧ set_params EpsAttack kw1 s1' = Return (VBool true) s2
      ∧ set_params EpsAttack (kw1 ++ kw2)%list fresh_instance
        = Return (VBool true) s2.
Proof.
  intros kw1 kw2.
  assert (Hnd : NoDup (kw1 ++ kw2)%list.*1) by (by apply (bool_decide_unpack _)).
  split; [apply eps_instance_allow_list|]. split; [done|].
  split; [apply eps_foo_binds|].
  exact (set_params_split EpsAttack fresh_instance ["classifier"; "eps"]
           kw1 kw2 eps_instance_allow_list Hnd eps_foo_binds).
Defined.

Lemma set_params_later_call_wins_witness :
  let kw1 := [("eps", VFloat float_0_3); ("classifier", VRef 1%nat)] in
  let kw2 := [("eps", VFloat float_0_2)] in
  allow_list EpsAttack fresh_instance ["classifier"; "eps"]
  ∧ NoDup kw1.*1 ∧ NoDup kw2.*1
  ∧ ("self" ∉ kw1.*1) ∧ ("self" ∉ kw2.*1)
  ∧ ∃ s1 s2,
      set_params EpsAttack kw1 fresh_instance = Return (VBool true) s1
      ∧ set_params EpsAttack kw2 s1 = Return (VBool true) s2
      ∧ dict s2 !! "eps" = Some (VFloat float_0_2)
      ∧ dict s2 !! "classifier" = Some (VRef 1%nat).
Proof.
  intros kw1 kw2.
  assert (Hnd1 : NoDup kw1.*1) by (by apply (bool_decide_unpack _)).
  assert (Hnd2 : NoDup kw2.*1) by (by apply (bool_decide_unpack _)).
  assert (Hself1 : "self" ∉ kw1.*1) by (by apply (bool_decide_eq_false_1 _)).
  assert (Hself2 : "self" ∉ kw2.*1) by (by apply (bool_decide_eq_false_1 _)).
  split; [apply eps_instance_allow_list|]. split; [done|]. split; [done|].
  split; [done|]. split; [done|].
  destruct (set_params_later_call_wins EpsAttack fresh_instance
              ["classifier"; "eps"] kw1 kw2 eps_instance_allow_list Hnd1 Hnd2
              Hself1 Hself2)
    as (s1 & s2 & Hret1 & Hret2 & Hsecond & Hfirst & _).
  exists s1, s2. split; [done|]. split; [done|]. split.
  - apply Hsecond; [apply list_elem_of_here|].
    apply list_elem_of_further, list_elem_of_here.
  - apply Hfirst; [apply list_elem_of_further, list_elem_of_here
                  |apply list_elem_of_here|].
    by apply (bool_decide_eq_false_1 _).
Defined.

Lemma set_params_attribute_names_witness :
  allow_list EpsAttack fresh_instance ["classifier"; "eps"]
  ∧ ∃ s', state_after (set_params EpsAttack eps_foo fresh_instance) = Some s'
          ∧ ∀ k, is_Some (dict s' !! k)
                 ↔ is_Some (dict fresh_instance !! k)
                   ∨ (("self" ∉ eps_foo.*1)
                      ∧ k ∈ ["classifier"; "eps"] ∧ k ∈ eps_foo.*1).
Proof.
  split; [apply eps_instance_allow_list|].
  exact (set_params_attribute_names EpsAttack fresh_instance
           ["classifier"; "eps"] eps_foo eps_instance_allow_list).
Defined.

(** A second [start_progress_bar] on an instance that has a bar. *)
Lemma start_progress_bar_fresh_bar_witness :
  let b : @bar StubProgbar := StubBar (VInt 20) (VInt 0) VNone in
  Progbar_new (Progbar := StubProgbar)
    (VInt 20) (VInt 30) (VInt 1) (VFloat float_0_05) VNone = inr b
  ∧ ∃ s', start_progress_bar (VInt 20) None None None None bar_instance
          = Return VNone s'
      ∧ dict s' !! "prog_bar" = Some (VProgbar 1%nat)
      ∧ heap s' !! 0%nat = Some (StubBar (VInt 10) (VInt 0) VNone)
      ∧ heap s' !! 1%nat = Some b.
Proof.
  intros b. split; [reflexivity|].
  destruct (start_progress_bar_fresh_bar (PB := StubProgbar) (VInt 20)
              None None None None bar_instance b eq_refl)
    as (s' & Hret & Hbar & _ & Hnew & Hold & _).
  exists s'. split; [done|]. split; [done|]. split; [|done].
  etrans; [apply (Hold 0%nat); simpl; lia|reflexivity].
Defined.

(** Two updates, the second without values. *)
Lemma update_progress_bar_sequence_witness :
  let ups := [(VInt 5, Some loss_values); (VInt 6, None)] in
  let b : @bar StubProgbar := StubBar (VInt 10) (VInt 0) VNone in
  dict bar_instance !! "update_progress_bar" = None
  ∧ dict bar_instance !! "prog_bar" = Some (VProgbar 0%nat)
  ∧ heap bar_instance !! 0%nat = Some b
  ∧ run Attack ((λ u, UpdateProgressBar u.1 u.2) <$> ups) bar_instance
    = Some {| dict := dict bar_instance;
              heap := [StubBar (VInt 10) (VInt 6) VNone : @bar StubProgbar] |}.
Proof.
  intros ups b. split; [reflexivity|]. split; [reflexivity|].
  split; [reflexivity|].
  exact (update_progress_bar_sequence (PB := StubProgbar) Attack ups
           bar_instance 0%nat b eq_refl eq_refl eq_refl).
Defined.


Lemma eps_bar_instance_allow_list :
  allow_list EpsAttack bar_instance ["classifier"; "eps"].
Proof.
  split; [reflexivity|].
  repeat constructor; try discriminate; by apply (bool_decide_eq_false_1 _).
Defined.

(** [set_params(eps=0.3, foo=7)] and [update_progress_bar(5, ...)] in both
    orders. *)
Lemma set_params_commutes_with_update_witness :
  allow_list EpsAttack bar_instance ["classifier"; "eps"]
  ∧ ("prog_bar" ∉ ["classifier"; "eps"])
  ∧ ("self" ∉ eps_foo.*1)
  ∧ ∃ s1 s2 s3,
      set_params EpsAttack eps_foo bar_instance = Return (VBool true) s1
      ∧ update_progress_bar EpsAttack (VInt 5) (Some loss_values) bar_instance
        = Return VNone s2
      ∧ update_progress_bar EpsAttack (VInt 5) (Some loss_values) s1
        = Return VNone s3
      ∧ set_params EpsAttack eps_foo s2 = Return (VBool true) s3.
Proof.
  assert (Hout : "prog_bar" ∉ ["classifier"; "eps"])
    by (by apply (bool_decide_eq_false_1 _)).
  split; [apply eps_bar_instance_allow_list|]. split; [done|].
  split; [apply eps_foo_binds|].
  destruct (set_params_commutes_with_update EpsAttack bar_instance
              ["classifier"; "eps"] eps_foo (VInt 5) (Some loss_values)
              eps_bar_instance_allow_list Hout eps_foo_binds)
    as (s1 & Hret & Hupd).
  assert (Hbar : update_progress_bar EpsAttack (VInt 5) (Some loss_values)
                   bar_instance
                 = Return VNone
                     {| dict := dict bar_instance;
                        heap := [StubBar (VInt 10) (VInt 5) loss_values
                                 : @bar StubProgbar] |})
    by reflexivity.
  rewrite Hbar in Hupd. destruct Hupd as (s3 & Hupd1 & Hret2).
  by eexists s1, _, s3.
Defined.

Lemma set_params_allow_list_not_iterable_witness :
  dict broken_instance !! "attack_params" = Some VNone
  ∧ (VNone = VNone ∨ (∃ b, VNone = VBool b) ∨ (∃ n, VNone = VInt n)
     ∨ (∃ x, VNone = VFloat x))
  ∧ set_params Attack eps_foo broken_instance = Raise TypeError broken_instance
  ∧ set_params Attack [] broken_instance = Return (VBool true) broken_instance.
Proof.
  split; [reflexivity|]. split; [by left|].
  exact (set_params_allow_list_not_iterable (PB := StubProgbar) Attack
           broken_instance VNone "eps" (VFloat float_0_3) [("foo", VInt 7)]
           eq_refl (or_introl eq_refl)).
Defined.

(** [set_params(attack_params=["foo"], eps=0.3, foo=7)] on a class that
    lists [attack_params] and [eps]: [eps] is dropped, [foo] is assigned. *)
Lemma set_params_rereads_allow_list_witness :
  getattr SelfNamingAttack "attack_params" fresh_instance
    = Return (VList (VStr <$> ["attack_params"; "eps"])) fresh_instance
  ∧ "attack_params" ∈ ["attack_params"; "eps"]
  ∧ Forall config_name ["foo"]
  ∧ ("self" ∉ eps_foo.*1)
  ∧ ∃ s', set_params SelfNamingAttack foo_then_eps_foo fresh_instance
          = Return (VBool true) s'
          ∧ dict s' !! "eps" = None
          ∧ dict s' !! "foo" = Some (VInt 7).
Proof.
  assert (Hfoo : Forall config_name ["foo"]).
  { repeat constructor; [discriminate|]. by apply (bool_decide_eq_false_1 _). }
  split; [reflexivity|]. split; [apply list_elem_of_here|]. split; [done|].
  split; [apply eps_foo_binds|].
  eexists. split.
  - exact (set_params_rereads_allow_list SelfNamingAttack fresh_instance
             ["attack_params"; "eps"] ["foo"] eps_foo eq_refl
             (list_elem_of_here _ _) Hfoo eps_foo_binds).
  - split; reflexivity.
Defined.
